(** * watermark_folder.py: a shallow embedding and its properties

    The script walks [SOURCE_FOLDER], stamps every page of every PDF with a
    one-page watermark and copies every other file, mirroring the relative
    paths under [OUTPUT_FOLDER].

    The embedding keeps the structure of the script.  What the script takes
    from outside is made explicit:
    - the file system is a finite map from absolute paths to nodes, which are
      directories and regular files with their bytes and their [stat]: the
      mode bits and the modification time.  Every file has one name: symbolic
      links, hard links and special files are not modelled.  Access times are
      not modelled either: whether a read moves them is the mount's choice;
    - standard output is a stream of text that is open and takes what is
      written to it; its codec, [Console], is the environment's.  The names
      the file system hands out may be text the codec refuses; the text of
      the script and the path of the folder it lives in are taken to be
      printable;
    - Python floats are IEEE 754 binary64 numbers ([PrimFloat.float]), and
      float division raises [ZeroDivisionError] on a zero divisor;
    - exceptions are values of [exn]; a computation is a function from the
      world to an outcome and the world it leaves behind;
    - pypdf and reportlab (parsing, serialising, compositing, rendering) are
      an interface, [PdfLibrary], of uninterpreted functions. *)

From Stdlib Require Import Floats ZArith Ascii String.
From stdpp Require Import base option list gmap strings pretty.

Set Warnings "-inexact-float".

Local Open Scope string_scope.
Local Open Scope list_scope.

(** ** Strings: the two [str] methods the script relies on *)

Module Str.

(** [s.rfind(c)]: index of the last occurrence, [-1] when there is none.
    [i] is the index of the head of [s] in the whole string. *)
Fixpoint rfind_from (c : ascii) (s : string) (i : Z) : Z :=
  match s with
  | EmptyString => (-1)%Z
  | String a s' =>
      let r := rfind_from c s' (i + 1)%Z in
      if (0 <=? r)%Z then r
      else if Ascii.eqb a c then i else (-1)%Z
  end.

Definition rfind (c : ascii) (s : string) : Z := rfind_from c s 0.

(** [len(s)] *)
Definition len (s : string) : Z := Z.of_nat (String.length s).

(** [s[i:]] for [0 <= i] *)
Fixpoint drop (n : nat) (s : string) : string :=
  match n, s with
  | O, _ => s
  | S n', String _ s' => drop n' s'
  | S _, EmptyString => EmptyString
  end.

Definition slice_from (i : Z) (s : string) : string := drop (Z.to_nat i) s.

(** [c.lower()] on the ASCII range; bytes of multi-byte UTF-8 sequences are
    left alone (no character outside ASCII lower-cases to [p], [d] or [f]). *)
Definition lower_ascii (c : ascii) : ascii :=
  let n := nat_of_ascii c in
  if (65 <=? n)%nat && (n <=? 90)%nat then ascii_of_nat (n + 32) else c.

Fixpoint lower (s : string) : string :=
  match s with
  | EmptyString => EmptyString
  | String a s' => String (lower_ascii a) (lower s')
  end.

End Str.

(** ** Paths: [pathlib.PurePosixPath] as the list of its components *)

Abbreviation Path := (list string).

Module PurePath.

(** [p.name]: the final component, empty for the root *)
Definition name (p : Path) : string := List.last p "".

(** [p.parent] *)
Definition parent (p : Path) : Path := removelast p.

(** [p.suffix], as pathlib computes it from the last dot of the name
    (Python up to 3.13): empty when the only dot leads or ends the name *)
Definition suffix (p : Path) : string :=
  let name := name p in
  let i := Str.rfind "." name in
  if (0 <? i)%Z && (i <? Str.len name - 1)%Z then Str.slice_from i name
  else "".

(** [a / b] *)
Definition joinpath (a b : Path) : Path := a ++ b.

(** [str(p)] of an absolute path *)
Definition str (p : Path) : string :=
  match p with
  | [] => "/"
  | _ => String.concat "" (List.map (fun c => "/" +:+ c) p)
  end.

(** [str(p)] of a relative path *)
Definition str_rel (p : Path) : string :=
  match p with
  | [] => "."
  | _ => String.concat "/" p
  end.

(** The remainder of [p] below [base], when [p] starts with [base] *)
Fixpoint strip_prefix (base p : Path) : option Path :=
  match base, p with
  | [], _ => Some p
  | b :: base', c :: p' => if decide (b = c) then strip_prefix base' p' else None
  | _ :: _, [] => None
  end.

End PurePath.

(** ** Exceptions and outcomes *)

Inductive OSErrorKind :=
| FileNotFoundError | FileExistsError | IsADirectoryError | NotADirectoryError
| PermissionError | NoSpaceError.

Inductive exn :=
| SystemExit (msg : string)
| OSError (k : OSErrorKind)
| SameFileError
| PdfReadError
| IndexError
| ValueError
| ZeroDivisionError
| UnicodeEncodeError.

Inductive result (A : Type) :=
| Ok (a : A)
| Raise (e : exn).
Arguments Ok {A} a.
Arguments Raise {A} e.

(** ** Floats and pypdf's [Transformation] *)

Local Open Scope float_scope.

(** [x / y] on Python floats *)
Definition float_div (x y : float) : result float :=
  if y =? 0 then Raise ZeroDivisionError else Ok (x / y).

(** A [Transformation] is kept as the chain of builder calls that made it:
    [Transformation()] is the identity matrix, each method composes one
    elementary map onto [self]. *)
Inductive Transformation :=
| Transformation_new
| scale (self : Transformation) (sx sy : float)
| rotate (self : Transformation) (degrees : float)
| translate (self : Transformation) (tx ty : float).

(** Does the chain contain a rotation or a translation? *)
Fixpoint rotates_or_translates (t : Transformation) : bool :=
  match t with
  | Transformation_new => false
  | scale t' _ _ => rotates_or_translates t'
  | rotate _ _ | translate _ _ _ => true
  end.

Record RectangleObject := { width : float; height : float }.

Record PageObject := {
  mediabox : RectangleObject;
  contents : list Byte.byte
}.

(** [scale_stamp_to_page(stamp_page, content_page)] *)
Definition scale_stamp_to_page (stamp_page content_page : PageObject)
  : result Transformation :=
  let sw := width (mediabox stamp_page) in
  let sh := height (mediabox stamp_page) in
  let cw := width (mediabox content_page) in
  let ch := height (mediabox content_page) in
  if (sw <=? 0) || (sh <=? 0) then Ok Transformation_new
  else
    match float_div cw sw with
    | Raise e => Raise e
    | Ok sx =>
        match float_div ch sh with
        | Raise e => Raise e
        | Ok sy => Ok (scale Transformation_new sx sy)
        end
    end.

Local Close Scope float_scope.

(** ** The file system and the rest of the world *)

Record stat_result := { st_mode : N; st_mtime : Z }.

Inductive node :=
| NFile (data : list Byte.byte) (st : stat_result)
| NDir.

(** [faults] lists what the environment does to the coming system calls that
    read, create or write (removing a file is not one of them): [Some k]
    makes the call fail with [OSError k] (permissions, full disk, ...),
    [None] lets it through; past the end of the list nothing fails.
    [tempname] is the name [tempfile] draws, [creat_stat] the [stat] a file
    gets when this process creates it: the mode bits the umask leaves and
    the time on the clock (the model reads one time for all the writes of a
    run).  [stdout] holds the lines printed, oldest first; after a [print]
    that failed midway its last entry is the part of the line that was
    written. *)
Record World := {
  files : gmap Path node;
  faults : list (option OSErrorKind);
  tempname : Path;
  creat_stat : stat_result;
  stdout : list string
}.

Definition set_files (f : gmap Path node) (w : World) : World :=
  {| files := f; faults := faults w; tempname := tempname w;
     creat_stat := creat_stat w; stdout := stdout w |}.

Definition set_faults (l : list (option OSErrorKind)) (w : World) : World :=
  {| files := files w; faults := l; tempname := tempname w;
     creat_stat := creat_stat w; stdout := stdout w |}.

Definition set_stdout (l : list string) (w : World) : World :=
  {| files := files w; faults := faults w; tempname := tempname w;
     creat_stat := creat_stat w; stdout := l |}.

(** The [stat] of a file this process has just written to: the mode bits
    stay, the modification time is the time of the write. *)
Definition written (w : World) (st : stat_result) : stat_result :=
  {| st_mode := st_mode st; st_mtime := st_mtime (creat_stat w) |}.

(** ** Computations: state and exceptions *)

Definition M (A : Type) : Type := World → result A * World.

Definition ret {A} (a : A) : M A := λ w, (Ok a, w).
Definition raise {A} (e : exn) : M A := λ w, (Raise e, w).
Definition lift {A} (r : result A) : M A := λ w, (r, w).

Definition bind {A B} (m : M A) (k : A → M B) : M B :=
  λ w, match m w with
       | (Ok a, w') => k a w'
       | (Raise e, w') => (Raise e, w')
       end.

Notation "'let*' x := m 'in' k" := (bind m (λ x, k))
  (at level 10, x name, m at level 100, k at level 200).
Notation "m >> k" := (bind m (λ _, k))
  (at level 100, k at level 200, right associativity).

(** [try: body finally: handler]: the handler runs on every outcome of the
    body; an exception of the handler replaces the outcome of the body. *)
Definition try_finally {A} (body : M A) (handler : M unit) : M A :=
  λ w, let '(r, w1) := body w in
       match handler w1 with
       | (Ok _, w2) => (r, w2)
       | (Raise e, w2) => (Raise e, w2)
       end.

(** [for x in l: body(x)] *)
Fixpoint for_each {A} (l : list A) (body : A → M unit) : M unit :=
  match l with
  | [] => ret tt
  | x :: l' => body x >> for_each l' body
  end.

(** The list comprehension of the elements [x] of [l] that pass [test(x)] *)
Fixpoint filter_by {A} (test : A → M bool) (l : list A) : M (list A) :=
  match l with
  | [] => ret []
  | x :: l' =>
      let* keep := test x in
      let* rest := filter_by test l' in
      ret (if keep then x :: rest else rest)
  end.

(** A [for] loop that updates a local variable [s] *)
Fixpoint for_fold {A S} (l : list A) (s : S) (body : S → A → M S) : M S :=
  match l with
  | [] => ret s
  | x :: l' => let* s' := body s x in for_fold l' s' body
  end.

(** What the process reports to its parent: a string argument of
    [SystemExit] and an uncaught exception both give status 1. *)
Definition exit_status {A} (r : result A) : Z :=
  match r with
  | Ok _ => 0
  | Raise _ => 1
  end.

(** ** System calls and library calls on the file system *)

Definition is_dir_in (fs : gmap Path node) (p : Path) : bool :=
  match p with
  | [] => true
  | _ => match fs !! p with Some NDir => true | _ => false end
  end.

Definition is_file_in (fs : gmap Path node) (p : Path) : bool :=
  match fs !! p with Some (NFile _ _) => true | _ => false end.

(** The environment's say on one system call *)
Definition syscall : M unit :=
  λ w, match faults w with
       | Some k :: rest => (Raise (OSError k), set_faults rest w)
       | None :: rest => (Ok tt, set_faults rest w)
       | [] => (Ok tt, w)
       end.

(** The codec of standard output, fixed when the process starts: [encodes]
    tells which texts it takes. *)
Class Console := {
  encodes : string → bool
}.

(** What [print] is given: text of the script's own making (a literal, the
    path of its folder), or a path put together from names that the file
    system handed out. *)
Inductive print_arg :=
| Lit (s : string)
| Rel (rel : Path).

Definition arg_str (a : print_arg) : string :=
  match a with
  | Lit s => s
  | Rel rel => PurePath.str_rel rel
  end.

Definition arg_encodes `{!Console} (a : print_arg) : bool :=
  match a with
  | Lit _ => true
  | Rel rel => encodes (PurePath.str_rel rel)
  end.

(** [print] writes its arguments one by one, a space before each but the
    first.  A write encodes its text at once or raises [UnicodeEncodeError]
    and writes nothing.  [print_text] gives the text that gets written and
    whether the last argument was reached. *)
Fixpoint print_text `{!Console} (args : list print_arg) : string * bool :=
  match args with
  | [] => ("", true)
  | a :: rest =>
      if arg_encodes a then
        match rest with
        | [] => (arg_str a, true)
        | _ => let '(s, ok) := print_text rest in (arg_str a +:+ " " +:+ s, ok)
        end
      else ("", false)
  end.

(** [print] of several arguments: one line on standard output, or the
    beginning of one when an argument does not encode *)
Definition print `{!Console} (args : list print_arg) : M unit :=
  λ w, let '(s, ok) := print_text args in
       if ok then (Ok tt, set_stdout (stdout w ++ [s]) w)
       else (Raise UnicodeEncodeError,
             match s with
             | "" => w
             | _ => set_stdout (stdout w ++ [s]) w
             end).

(** [p.is_dir()], [p.is_file()] *)
Definition Path_is_dir (p : Path) : M bool := λ w, (Ok (is_dir_in (files w) p), w).
Definition Path_is_file (p : Path) : M bool := λ w, (Ok (is_file_in (files w) p), w).

(** [rest] is a path below a directory [root]: every directory on the way
    down to, and not including, [root ++ rest] exists. *)
Fixpoint reachable (fs : gmap Path node) (root rest : Path) : bool :=
  match rest with
  | [] => false
  | [_] => true
  | c :: rest' =>
      match fs !! (root ++ [c]) with
      | Some NDir => reachable fs (root ++ [c]) rest'
      | _ => false
      end
  end.

Definition below (fs : gmap Path node) (root p : Path) : bool :=
  match PurePath.strip_prefix root p with
  | Some rest => reachable fs root rest
  | None => false
  end.

(** The order in which directory entries are handed out is the
    environment's choice: [scandir_order] rearranges a list of paths. *)
Class Listing := {
  scandir_order : list Path → list Path;
  scandir_order_perm : ∀ l, scandir_order l ≡ₚ l
}.

(** [root.rglob] with the pattern that matches every name: every entry
    of every directory of the tree of [root], in the order the directories
    hand them out *)
Definition rglob `{!Listing} (fs : gmap Path node) (root : Path) : list Path :=
  filter (λ p, below fs root p) (scandir_order (map_to_list fs).*1).

Definition Path_rglob `{!Listing} (root : Path) : M (list Path) :=
  λ w, (Ok (rglob (files w) root), w).

(** [open(p, "rb").read()] *)
Definition read_bytes (p : Path) : M (list Byte.byte) :=
  syscall >>
  λ w, match files w !! p with
       | Some (NFile d _) => (Ok d, w)
       | Some NDir => (Raise (OSError IsADirectoryError), w)
       | None => (Raise (OSError FileNotFoundError), w)
       end.

(** The error of a call that needs the directory above [p] and does not
    find one *)
Definition no_parent (fs : gmap Path node) (p : Path) : exn :=
  match fs !! PurePath.parent p with
  | Some (NFile _ _) => OSError NotADirectoryError
  | _ => OSError FileNotFoundError
  end.

(** [open(p, "wb")]: creates the file or truncates it; truncating is a write *)
Definition open_wb (p : Path) : M unit :=
  syscall >>
  λ w, match p with
       | [] => (Raise (OSError IsADirectoryError), w)
       | _ =>
         if negb (is_dir_in (files w) (PurePath.parent p))
         then (Raise (no_parent (files w) p), w)
         else match files w !! p with
              | Some NDir => (Raise (OSError IsADirectoryError), w)
              | Some (NFile _ st) =>
                  (Ok tt, set_files (<[p := NFile [] (written w st)]> (files w)) w)
              | None => (Ok tt, set_files (<[p := NFile [] (creat_stat w)]> (files w)) w)
              end
       end.

(** Writing [data] through the handle that [open_wb p] gave *)
Definition write_handle (p : Path) (data : list Byte.byte) : M unit :=
  syscall >>
  λ w, match files w !! p with
       | Some (NFile _ st) =>
           (Ok tt, set_files (<[p := NFile data (written w st)]> (files w)) w)
       | _ => (Raise ValueError, w)
       end.

(** The non-empty prefixes of a path, shortest first *)
Fixpoint prefixes (p : Path) : list Path :=
  match p with
  | [] => []
  | c :: p' => [c] :: List.map (cons c) (prefixes p')
  end.

(** One level of [p.mkdir(parents=True, exist_ok=True)], at the prefix [q] of
    [p]: fine if the directory is there, an error if a file is in the way
    (at [p] itself or above it), else the directory is made. *)
Definition ensure_dir (p q : Path) : M unit :=
  λ w, match files w !! q with
       | Some NDir => (Ok tt, w)
       | Some (NFile _ _) =>
           (Raise (OSError (if decide (q = p) then FileExistsError
                            else NotADirectoryError)), w)
       | None => (syscall >> λ w', (Ok tt, set_files (<[q := NDir]> (files w')) w')) w
       end.

(** [p.mkdir(parents=True, exist_ok=True)] *)
Definition Path_mkdir_parents_exist_ok (p : Path) : M unit :=
  for_each (prefixes p) (ensure_dir p).

(** [p.unlink(missing_ok=True)] *)
Definition Path_unlink_missing_ok (p : Path) : M unit :=
  λ w, match files w !! p with
       | None => (Ok tt, w)
       | Some (NFile _ _) => (Ok tt, set_files (delete p (files w)) w)
       | Some NDir => (Raise (OSError IsADirectoryError), w)
       end.

(** [shutil.copyfile(src, dst)].  It refuses to copy a file onto itself:
    [os.path.samefile] compares the files, and with one name per file two
    paths name the same file when they are equal. *)
Definition shutil_copyfile (src dst : Path) : M unit :=
  if decide (src = dst) then raise SameFileError
  else
    let* d := read_bytes src in
    open_wb dst >>
    write_handle dst d.

(** [shutil.copystat(src, dst)]: the mode bits and the modification time of
    [src] become those of [dst] *)
Definition shutil_copystat (src dst : Path) : M unit :=
  syscall >>
  λ w, match files w !! src, files w !! dst with
       | Some (NFile _ st), Some (NFile d _) =>
           (Ok tt, set_files (<[dst := NFile d st]> (files w)) w)
       | _, _ => (Raise (OSError FileNotFoundError), w)
       end.

(** Where [shutil.copy2(src, dst)] writes: into [dst] when it is a directory *)
Definition copy2_target (fs : gmap Path node) (src dst : Path) : Path :=
  if is_dir_in fs dst then PurePath.joinpath dst [PurePath.name src] else dst.

(** [shutil.copy2(src, dst)] *)
Definition shutil_copy2 (src dst : Path) : M Path :=
  let* dst_is_dir := Path_is_dir dst in
  let dst := if dst_is_dir then PurePath.joinpath dst [PurePath.name src] else dst in
  shutil_copyfile src dst >>
  shutil_copystat src dst >>
  ret dst.

(** [tempfile.NamedTemporaryFile(suffix=".pdf", delete=False)], entered and
    left as a [with] block: an empty file under a name that was free.  The
    names Python tries end in the suffix asked for; the draw of the
    environment is usable when it does and is free, and with no usable name
    Python gives up with [FileExistsError]. *)
Definition tempfile_NamedTemporaryFile : M Path :=
  syscall >>
  λ w, let p := tempname w in
       if negb (bool_decide (PurePath.suffix p = ".pdf"))
       then (Raise (OSError FileExistsError), w)
       else
         match p, files w !! p with
         | [], _ => (Raise (OSError FileExistsError), w)
         | _, Some _ => (Raise (OSError FileExistsError), w)
         | _, None =>
             if is_dir_in (files w) (PurePath.parent p)
             then (Ok p, set_files (<[p := NFile [] (creat_stat w)]> (files w)) w)
             else (Raise (no_parent (files w) p), w)
         end.

(** ** reportlab and pypdf *)

(** The drawing calls the script makes on a reportlab canvas *)
Inductive canvas_op :=
| setFillAlpha (a : float)
| setFillColorRGB (r g b : float)
| setFont (psfontname : string) (size : float)
| saveState
| c_translate (dx dy : float)
| c_rotate (theta : float)
| drawCentredString (x y : float) (text : string)
| restoreState.

Record Canvas := {
  c_filename : Path;
  c_pagesize : float * float;
  c_code : list canvas_op
}.

(** What the two libraries compute, left uninterpreted: reportlab's rendering
    of a one-page canvas to bytes, pypdf's parser ([None] stands for the
    reader's exception), its serialiser and its page compositing. *)
Class PdfLibrary := {
  canvas_render : float * float → list canvas_op → list Byte.byte;
  pdf_parse : list Byte.byte → option (list PageObject);
  pdf_serialize : list PageObject → list Byte.byte;
  merge_transformed_page : PageObject → PageObject → Transformation → bool → PageObject
}.

(** [reportlab.lib.pagesizes.A4] *)
Definition inch : float := 72%float.
Definition cm : float := (inch / 2.54)%float.
Definition mm : float := (cm * 0.1)%float.
Definition A4 : float * float := ((210 * mm)%float, (297 * mm)%float).

(** [canvas.Canvas(filename, pagesize=...)] *)
Definition canvas_Canvas (filename : Path) (pagesize : float * float) : Canvas :=
  {| c_filename := filename; c_pagesize := pagesize; c_code := [] |}.

Definition draw (op : canvas_op) (c : Canvas) : Canvas :=
  {| c_filename := c_filename c; c_pagesize := c_pagesize c;
     c_code := c_code c ++ [op] |}.

(** [c.save()] *)
Definition canvas_save `{!PdfLibrary} (c : Canvas) : M unit :=
  open_wb (c_filename c) >>
  write_handle (c_filename c) (canvas_render (c_pagesize c) (c_code c)).

(** [PdfReader(p).pages] *)
Definition PdfReader_pages `{!PdfLibrary} (p : Path) : M (list PageObject) :=
  let* d := read_bytes p in
  match pdf_parse d with
  | Some pages => ret pages
  | None => raise PdfReadError
  end.

(** [pages[0]] *)
Definition first_page (pages : list PageObject) : M PageObject :=
  match pages with
  | pg :: _ => ret pg
  | [] => raise IndexError
  end.

(** [writer.write(f)] on the handle of [open(p, "wb")] *)
Definition PdfWriter_write `{!PdfLibrary} (writer : list PageObject) (p : Path) : M unit :=
  write_handle p (pdf_serialize writer).

(** ** The script *)

Definition WATERMARK_TEXT : string := "Uniquement projet immo T1 2026".

(** [p.relative_to(base)] *)
Definition relative_to (p base : Path) : M Path :=
  match PurePath.strip_prefix base p with
  | Some rel => ret rel
  | None => raise ValueError
  end.

Definition nl : string := String (ascii_of_nat 10) "".

Section Script.

Context {lib : PdfLibrary} {ord : Listing} {con : Console}.

(** The directory of the script: [Path(__file__).resolve().parent] *)
Variable here : Path.

Definition SOURCE_FOLDER : Path := PurePath.joinpath here ["docs"].
Definition OUTPUT_FOLDER : Path := PurePath.joinpath here ["docs - watermarked"].

(** [create_watermark_pdf(output_path)] *)
Definition create_watermark_pdf (output_path : Path) : M unit :=
  let '(w, h) := A4 in
  let c := canvas_Canvas output_path A4 in
  let c := draw (setFillAlpha 0.25) c in
  let c := draw (setFillColorRGB 0.4 0.4 0.4) c in
  let c := draw (setFont "Helvetica-Bold" 32) c in
  let c := draw saveState c in
  let c := draw (c_translate (w / 2) (h / 2)) c in
  let c := draw (c_rotate 45) c in
  let c := draw (drawCentredString 0 0 WATERMARK_TEXT) c in
  let c := draw restoreState c in
  canvas_save c.

(** The body of the loop of [watermark_pdf]: the page with the stamp
    merged over it joins the writer. *)
Definition stamp_one (stamp_page : PageObject) (writer : list PageObject)
    (page : PageObject) : M (list PageObject) :=
  let* ctm := lift (scale_stamp_to_page stamp_page page) in
  let page := merge_transformed_page page stamp_page ctm true in
  ret (writer ++ [page]).

(** [watermark_pdf(input_path, output_path, stamp_page)] *)
Definition watermark_pdf (input_path output_path : Path) (stamp_page : PageObject)
  : M unit :=
  let* pages := PdfReader_pages input_path in
  let* writer := for_fold pages [] (stamp_one stamp_page) in
  Path_mkdir_parents_exist_ok (PurePath.parent output_path) >>
  open_wb output_path >>
  PdfWriter_write writer output_path.

(** The three lists [main] builds *)
Definition all_files_of (fs : gmap Path node) : list Path :=
  filter (λ p, is_file_in fs p) (rglob fs SOURCE_FOLDER).

Definition pdf_files_of (all_files : list Path) : list Path :=
  filter (λ p, Str.lower (PurePath.suffix p) = ".pdf") all_files.

Definition other_files_of (all_files : list Path) : list Path :=
  filter (λ p, p ∉ pdf_files_of all_files) all_files.

(** The body of the first loop of [main] *)
Definition do_pdf (stamp_page : PageObject) (pdf_path : Path) : M unit :=
  let* rel := relative_to pdf_path SOURCE_FOLDER in
  let out_path := PurePath.joinpath OUTPUT_FOLDER rel in
  print [Lit "Watermarking:"; Rel rel] >>
  watermark_pdf pdf_path out_path stamp_page.

(** The body of the second loop of [main] *)
Definition do_other (other_path : Path) : M unit :=
  let* rel := relative_to other_path SOURCE_FOLDER in
  let out_path := PurePath.joinpath OUTPUT_FOLDER rel in
  Path_mkdir_parents_exist_ok (PurePath.parent out_path) >>
  (let* _ := shutil_copy2 other_path out_path in
   print [Lit "Copied:"; Rel rel]).

(** The text of the last [print] of [main] *)
Definition summary (pdf_files other_files : list Path) : string :=
  nl +:+ "Done. " +:+ pretty (length pdf_files) +:+ " PDF(s) watermarked, "
  +:+ pretty (length other_files) +:+ " file(s) copied to:" +:+ nl +:+ "  "
  +:+ PurePath.str OUTPUT_FOLDER.

(** The [try] block of [main] *)
Definition main_body (tmp_path : Path) (pdf_files other_files : list Path) : M unit :=
  create_watermark_pdf tmp_path >>
  let* pages := PdfReader_pages tmp_path in
  let* stamp_page := first_page pages in
  for_each pdf_files (do_pdf stamp_page) >>
  for_each other_files do_other >>
  print [Lit (summary pdf_files other_files)].

(** [main()] *)
Definition main : M unit :=
  let* source_is_dir := Path_is_dir SOURCE_FOLDER in
  if negb source_is_dir
  then raise (SystemExit ("Source folder not found: " +:+ PurePath.str SOURCE_FOLDER))
  else
    let* entries := Path_rglob SOURCE_FOLDER in
    let* all_files := filter_by Path_is_file entries in
    let pdf_files := pdf_files_of all_files in
    let other_files := other_files_of all_files in
    match all_files with
    | [] => print [Lit "No files found in"; Lit (PurePath.str SOURCE_FOLDER)]
    | _ =>
        let* tmp_path := tempfile_NamedTemporaryFile in
        try_finally (main_body tmp_path pdf_files other_files)
                    (Path_unlink_missing_ok tmp_path)
    end.

End Script.

(** ** Notions used to state the properties *)

(** The relative paths of the regular files in the tree of [root] *)
Definition regular_files_under `{!Listing} (fs : gmap Path node) (root : Path)
  : list Path :=
  omap (PurePath.strip_prefix root) (filter (λ p, is_file_in fs p) (rglob fs root)).

(** How a computation may change the file system.

    [evolves T D fs fs']: from [fs] to [fs'] nothing is removed and nothing
    changes its kind; a regular file is created or rewritten only at a
    path of [T]; a directory is made only at a path of [D]. *)

Definition evolves (T D : Path → Prop) (fs fs' : gmap Path node) : Prop :=
  ∀ q, match fs !! q with
       | Some (NFile d st) =>
           ∃ d' st', fs' !! q = Some (NFile d' st') ∧ (T q ∨ (d' = d ∧ st' = st))
       | Some NDir => fs' !! q = Some NDir
       | None =>
           match fs' !! q with
           | Some (NFile _ _) => T q
           | Some NDir => D q
           | None => True
           end
       end.

Definition changes_within {A} (T D : Path → Prop) (m : M A) : Prop :=
  ∀ w r w', m w = (r, w') → evolves T D (files w) (files w').

Section Notions.

Context {lib : PdfLibrary} {ord : Listing} {con : Console} (here : Path).

(** Where [main] sends the source file [p]: [OUTPUT_FOLDER / rel] for
    [p = SOURCE_FOLDER / rel] *)
Definition out_path (p : Path) : Path :=
  PurePath.joinpath (OUTPUT_FOLDER here) (drop (length (SOURCE_FOLDER here)) p).

(** The first two statements of the [try] block of [main] *)
Definition load_stamp (tmp_path : Path) : M PageObject :=
  create_watermark_pdf tmp_path >>
  let* pages := PdfReader_pages tmp_path in
  first_page pages.

(** The two loops of [main] as one loop over the files in the order they
    are processed *)
Definition files_in_order (all_files : list Path) : list Path :=
  pdf_files_of all_files ++ other_files_of all_files.

Definition do_file (all_files : list Path) (stamp_page : PageObject) (p : Path) : M unit :=
  if decide (p ∈ pdf_files_of all_files) then do_pdf here stamp_page p
  else do_other here p.

(** The paths where processing the files [ps] may write a regular file, and
    those where it may make a directory *)
Definition touched (ps : list Path) (q : Path) : Prop :=
  ∃ p, p ∈ ps ∧ (q = out_path p ∨ q = out_path p ++ [PurePath.name p]).

Definition made_dirs (ps : list Path) (q : Path) : Prop :=
  ∃ p, p ∈ ps ∧ q ∈ prefixes (PurePath.parent (out_path p)).

(** [writer] holds the pages of [pages], each with the stamp merged over it
    under the transform [scale_stamp_to_page] gives for it, in the same order *)
Definition stamped (stamp_page : PageObject) (pages writer : list PageObject) : Prop :=
  length writer = length pages
  ∧ ∀ i page, pages !! i = Some page →
      ∃ ctm, scale_stamp_to_page stamp_page page = Ok ctm
             ∧ writer !! i = Some (merge_transformed_page page stamp_page ctm true).

(** The source file [p] of the file system [fs0] has its output in [fs']:
    the directories down to it, and the watermarked document at the output
    path or the copy where [shutil.copy2] puts it *)
Definition mirrored (fs0 fs' : gmap Path node) (stamp_page : PageObject) (p : Path) : Prop :=
  (∀ q, q ∈ prefixes (PurePath.parent (out_path p)) → fs' !! q = Some NDir)
  ∧ ∃ d st, fs0 !! p = Some (NFile d st)
     ∧ if decide (Str.lower (PurePath.suffix p) = ".pdf")
       then ∃ pages writer st',
              pdf_parse d = Some pages ∧ stamped stamp_page pages writer
              ∧ fs' !! out_path p = Some (NFile (pdf_serialize writer) st')
       else fs' !! copy2_target fs0 p (out_path p) = Some (NFile d st).

End Notions.

(** ** Notions for the further properties *)

(** The drawing calls of [create_watermark_pdf], in the order it makes them *)
Definition stamp_code : list canvas_op :=
  [ setFillAlpha 0.25;
    setFillColorRGB 0.4 0.4 0.4;
    setFont "Helvetica-Bold" 32;
    saveState;
    c_translate (fst A4 / 2) (snd A4 / 2);
    c_rotate 45;
    drawCentredString 0 0 WATERMARK_TEXT;
    restoreState ].

(** A computation that prints nothing *)
Definition keeps_stdout {A} (m : M A) : Prop :=
  ∀ w r w', m w = (r, w') → stdout w' = stdout w.

(** A computation whose exceptions all satisfy [P] *)
Definition raises_only {A} (P : exn → Prop) (m : M A) : Prop :=
  ∀ w e w', m w = (Raise e, w') → P e.

(** The errors of system calls, and those a run that found its source
    folder can end with *)
Definition os_error (e : exn) : Prop := ∃ k, e = OSError k.

Definition run_error (e : exn) : Prop :=
  os_error e ∨ e = PdfReadError ∨ e = IndexError.

(** The line [main] prints for the enumerated file [p] *)
Definition log_line (here : Path) (all_files : list Path) (p : Path) : string :=
  let rel := PurePath.str_rel (drop (length (SOURCE_FOLDER here)) p) in
  if decide (p ∈ pdf_files_of all_files)
  then String.concat " " ["Watermarking:"; rel]
  else String.concat " " ["Copied:"; rel].

(** Is the relative path of the source file [p] text that standard output
    takes? *)
Definition printable `{!Console} (here : Path) (p : Path) : bool :=
  encodes (PurePath.str_rel (drop (length (SOURCE_FOLDER here)) p)).

(** What is on standard output of the line of the file [p] when processing
    it raised [e] *)
Definition failed_line `{!Console} (here : Path) (all_files : list Path) (p : Path)
    (e : exn) : list string :=
  if decide (p ∈ pdf_files_of all_files) then
    [if printable here p then log_line here all_files p else "Watermarking: "]
  else
    match e with
    | UnicodeEncodeError => ["Copied: "]
    | _ => []
    end.

(** A path that differs from every key of a literal map is not in the map. *)
Ltac not_a_key :=
  apply not_elem_of_list_to_map_1; simpl; intros Hin;
  repeat (apply elem_of_cons in Hin as [Hin|Hin]; [discriminate Hin|]);
  by apply elem_of_nil in Hin.

(** A step ends in the world [w] it started from, or in [w] with another
    map of files. *)
Ltac files_step w :=
  first [ by eexists; eexists
        | by eexists; exists (files w); destruct w ].

(** Case analysis on a character *)
Ltac ascii_cases c :=
  destruct c as [[] [] [] [] [] [] [] []]; vm_compute; intros; try discriminate; auto.

(** ** A small library instance and a few source trees, for examples *)

Module Demo.

Definition page (w h : float) (body : list Byte.byte) : PageObject :=
  {| mediabox := {| width := w; height := h |}; contents := body |}.

Definition a4_page : PageObject := page (fst A4) (snd A4) [Byte.x53].
Definition letter_page : PageObject := page 612 792 [Byte.x4c].
Definition flat_page : PageObject := page 0 792 [Byte.x5a].

(** A toy PDF library: the rendered stamp is the byte [S]; a document is a
    row of bytes, [L] for a letter page and [S] for an A4 page, and bytes of
    any other kind do not parse; merging appends the content of the stamp. *)
Definition parse_byte (b : Byte.byte) : option PageObject :=
  match b with
  | Byte.x4c => Some letter_page
  | Byte.x53 => Some a4_page
  | _ => None
  end.

Definition serialize_page (pg : PageObject) : list Byte.byte := contents pg.

(** Entries come in the order of the map. *)
#[global] Instance ord : Listing := {|
  scandir_order := λ l, l;
  scandir_order_perm := λ l, reflexivity l
|}.

#[global] Instance lib : PdfLibrary := {|
  canvas_render := λ _ _, [Byte.x53];
  pdf_parse := λ d, mapM parse_byte d;
  pdf_serialize := λ pages, concat (serialize_page <$> pages);
  merge_transformed_page := λ pg stamp _ _,
    {| mediabox := mediabox pg; contents := contents pg ++ contents stamp |}
|}.

Definition here : Path := ["home"; "u"].

Definition st0 : stat_result := {| st_mode := 420; st_mtime := 900 |}.
Definition st1 : stat_result := {| st_mode := 384; st_mtime := 1900 |}.

(** [docs] holds [a.pdf], [b.jpg] and [sub/c.PDF]. *)
Definition tree (a_pdf c_pdf : list Byte.byte) : gmap Path node :=
  list_to_map
    [ (["home"], NDir);
      (["home"; "u"], NDir);
      (["home"; "u"; "docs"], NDir);
      (["home"; "u"; "docs"; "a.pdf"], NFile a_pdf st0);
      (["home"; "u"; "docs"; "b.jpg"], NFile [Byte.x4a; Byte.x46] st0);
      (["home"; "u"; "docs"; "sub"], NDir);
      (["home"; "u"; "docs"; "sub"; "c.PDF"], NFile c_pdf st0);
      (["tmp"], NDir) ].

(** A codec that takes seven-bit text only *)
Definition seven_bit (s : string) : bool :=
  forallb (λ c, Nat.ltb (nat_of_ascii c) 128) (list_ascii_of_string s).

#[global] Instance con : Console := {| encodes := seven_bit |}.

Definition world (fs : gmap Path node) : World :=
  {| files := fs; faults := []; tempname := ["tmp"; "tmpk3x9.pdf"];
     creat_stat := st1; stdout := [] |}.

(** [a.pdf] has two pages, [sub/c.PDF] has one. *)
Definition good : World := world (tree [Byte.x4c; Byte.x4c] [Byte.x4c]).

(** The same tree with a [sub/c.PDF] that does not parse *)
Definition bad : World := world (tree [Byte.x4c; Byte.x4c] [Byte.x58]).

(** A tree with a file named [.pdf] and a file named [x.Pdf] *)
Definition dotty : World :=
  world (list_to_map [ (["home"], NDir); (["home"; "u"], NDir);
                       (["home"; "u"; "docs"], NDir);
                       (["home"; "u"; "docs"; ".pdf"], NFile [Byte.x4c] st0);
                       (["home"; "u"; "docs"; "x.Pdf"], NFile [Byte.x4c] st0);
                       (["tmp"], NDir) ]).

(** The tree of [good] with an output folder left from before, in which a
    directory stands where [b.jpg] is to go *)
Definition stale : World :=
  world (<[ ["home"; "u"; "docs - watermarked"; "b.jpg"] := NDir ]>
           (<[ ["home"; "u"; "docs - watermarked"] := NDir ]>
              (tree [Byte.x4c; Byte.x4c] [Byte.x4c]))).


(** A tree with a file whose name is not seven-bit text: the byte [E9] *)
Definition odd_name : string := String (ascii_of_nat 233) ".jpg".

Definition odd : World :=
  world (list_to_map [ (["home"], NDir); (["home"; "u"], NDir);
                       (["home"; "u"; "docs"], NDir);
                       (["home"; "u"; "docs"; "a.pdf"], NFile [Byte.x4c] st0);
                       (["home"; "u"; "docs"; odd_name], NFile [Byte.x4a] st0);
                       (["tmp"], NDir) ]).

(** The last line a run on [good] prints *)
Definition here_summary : string :=
  nl +:+ "Done. 2 PDF(s) watermarked, 1 file(s) copied to:" +:+ nl
  +:+ "  /home/u/docs - watermarked".

Definition nowhere : World :=
  world (list_to_map [ (["home"], NDir); (["home"; "u"], NDir); (["tmp"], NDir) ]).

End Demo.

(** * Properties *)

(** ** Float comparisons against zero *)

Lemma float_pos_not_le (x : float) :
  (0 <? x)%float = true → (x <=? 0)%float = false.
Proof.
  rewrite FloatAxioms.ltb_spec, FloatAxioms.leb_spec.
  change (Prim2SF 0) with (S754_zero false).
  destruct (Prim2SF x) as [s|s| |s m e]; try destruct s; cbv; try congruence.
  all: destruct m; cbv; congruence.
Qed.

Lemma float_not_le_nonzero (x : float) :
  (x <=? 0)%float = false → (x =? 0)%float = false.
Proof.
  rewrite FloatAxioms.eqb_spec, FloatAxioms.leb_spec.
  change (Prim2SF 0) with (S754_zero false).
  destruct (Prim2SF x) as [s|s| |s m e]; try destruct s; cbv; congruence.
Qed.

Lemma float_div_nonzero (x y : float) :
  (y =? 0)%float = false → float_div x y = Ok (x / y)%float.
Proof. intros Hy. unfold float_div. by rewrite Hy. Qed.

(** ** The page transformer *)

Lemma scale_stamp_to_page_guarded (stamp_page content_page : PageObject) :
  (width (mediabox stamp_page) <=? 0)%float
    || (height (mediabox stamp_page) <=? 0)%float = true →
  scale_stamp_to_page stamp_page content_page = Ok Transformation_new.
Proof. intros Hg. unfold scale_stamp_to_page. by rewrite Hg. Qed.

Lemma scale_stamp_to_page_unguarded (stamp_page content_page : PageObject) :
  (width (mediabox stamp_page) <=? 0)%float = false →
  (height (mediabox stamp_page) <=? 0)%float = false →
  scale_stamp_to_page stamp_page content_page =
    Ok (scale Transformation_new
          (width (mediabox content_page) / width (mediabox stamp_page))%float
          (height (mediabox content_page) / height (mediabox stamp_page))%float).
Proof.
  intros Hw Hh. unfold scale_stamp_to_page. rewrite Hw, Hh. simpl.
  rewrite !float_div_nonzero by by apply float_not_le_nonzero.
  done.
Qed.

Lemma scale_stamp_to_page_total (stamp_page content_page : PageObject) :
  ∃ ctm, scale_stamp_to_page stamp_page content_page = Ok ctm.
Proof.
  destruct ((width (mediabox stamp_page) <=? 0)%float) eqn:Hw.
  { eexists. apply scale_stamp_to_page_guarded. by rewrite Hw. }
  destruct ((height (mediabox stamp_page) <=? 0)%float) eqn:Hh.
  { eexists. apply scale_stamp_to_page_guarded. by rewrite Hw, Hh. }
  eexists. by apply scale_stamp_to_page_unguarded.
Qed.

(** C5. [scale_stamp_to_page] never raises (no division by a stamp dimension
    that is zero or negative is attempted).  When the width and the height of
    the stamp are both strictly positive the result is the identity scaled by
    [cw / sw] and [ch / sh], a chain with no rotation and no translation;
    when one of them is zero or negative the result is the identity. *)
Theorem scale_stamp_to_page_spec (stamp_page content_page : PageObject) :
  let sw := width (mediabox stamp_page) in
  let sh := height (mediabox stamp_page) in
  let cw := width (mediabox content_page) in
  let ch := height (mediabox content_page) in
  (∃ ctm, scale_stamp_to_page stamp_page content_page = Ok ctm
          ∧ rotates_or_translates ctm = false)
  ∧ ((0 <? sw)%float = true → (0 <? sh)%float = true →
     scale_stamp_to_page stamp_page content_page
     = Ok (scale Transformation_new (cw / sw)%float (ch / sh)%float))
  ∧ ((sw <=? 0)%float = true ∨ (sh <=? 0)%float = true →
     scale_stamp_to_page stamp_page content_page = Ok Transformation_new).
Proof.
  intros sw sh cw ch. split; [|split].
  - destruct ((sw <=? 0)%float) eqn:Hw.
    { exists Transformation_new. split; [|done].
      apply scale_stamp_to_page_guarded. fold sw. by rewrite Hw. }
    destruct ((sh <=? 0)%float) eqn:Hh.
    { exists Transformation_new. split; [|done].
      apply scale_stamp_to_page_guarded. fold sw sh. by rewrite Hw, Hh. }
    eexists. split; [by apply scale_stamp_to_page_unguarded|done].
  - intros Hw Hh.
    apply scale_stamp_to_page_unguarded; by apply float_pos_not_le.
  - intros Hg. apply scale_stamp_to_page_guarded. fold sw sh.
    destruct Hg as [-> | ->]; [done | by rewrite orb_true_r].
Qed.

(** ** Suffixes and lower case *)


Lemma lower_ascii_dot c : Str.lower_ascii c = "."%char → c = "."%char.
Proof. ascii_cases c. Qed.

Lemma lower_ascii_p c : Str.lower_ascii c = "p"%char → c = "p"%char ∨ c = "P"%char.
Proof. ascii_cases c. Qed.

Lemma lower_ascii_d c : Str.lower_ascii c = "d"%char → c = "d"%char ∨ c = "D"%char.
Proof. ascii_cases c. Qed.

Lemma lower_ascii_f c : Str.lower_ascii c = "f"%char → c = "f"%char ∨ c = "F"%char.
Proof. ascii_cases c. Qed.

(** The strings that [lower] sends to [".pdf"] are the eight spellings of it. *)
Lemma lower_pdf_iff (s : string) :
  Str.lower s = ".pdf" ↔
  s ∈ [".pdf"; ".pdF"; ".pDf"; ".pDF"; ".Pdf"; ".PdF"; ".PDf"; ".PDF"].
Proof.
  split.
  - destruct s as [|c0 [|c1 [|c2 [|c3 [|c4 s]]]]]; simpl; try discriminate.
    intros [= H0 H1 H2 H3].
    apply lower_ascii_dot in H0 as ->.
    apply lower_ascii_p in H1 as [-> | ->];
      apply lower_ascii_d in H2 as [-> | ->];
      apply lower_ascii_f in H3 as [-> | ->];
      repeat first [apply list_elem_of_here | apply list_elem_of_further].
  - intros H. repeat (apply elem_of_cons in H as [-> | H]; [reflexivity|]).
    by apply elem_of_nil in H.
Qed.

Lemma rfind_from_app_dot (stem e : string) (i : Z) :
  (∀ j, Str.rfind_from "." e j = (-1)%Z) → (0 ≤ i)%Z →
  Str.rfind_from "." (stem +:+ String "." e) i = (i + Str.len stem)%Z.
Proof.
  intros He. revert i. induction stem as [|a stem IH]; intros i Hi.
  - simpl. rewrite He. simpl. unfold Str.len. simpl. lia.
  - simpl. rewrite IH by lia.
    assert (Hlen : (0 ≤ Str.len stem)%Z) by (unfold Str.len; lia).
    destruct (Z.leb_spec 0 (i + 1 + Str.len stem)); [|lia].
    unfold Str.len in *. simpl String.length. lia.
Qed.

Lemma drop_app (a b : string) : Str.drop (String.length a) (a +:+ b) = b.
Proof. induction a; simpl; [by destruct b|done]. Qed.

Lemma length_app_str (a b : string) :
  String.length (a +:+ b) = (String.length a + String.length b)%nat.
Proof. induction a; simpl; auto. Qed.

(** A name made of a non-empty stem and an extension spelled like [".pdf"]
    has that extension as its suffix. *)
Lemma suffix_stem_pdf (p : Path) (stem ext : string) :
  PurePath.name p = stem +:+ ext → stem ≠ "" → Str.lower ext = ".pdf" →
  PurePath.suffix p = ext.
Proof.
  intros Hname Hstem Hext. unfold PurePath.suffix. rewrite Hname.
  assert (∃ e, ext = String "." e ∧ String.length e = 3%nat
               ∧ ∀ j, Str.rfind_from "." e j = (-1)%Z) as (e & -> & Hlen & He).
  { apply lower_pdf_iff in Hext.
    repeat (apply elem_of_cons in Hext as [-> | Hext];
            [eexists; split; [reflexivity|split; [reflexivity|intros j; reflexivity]]|]).
    by apply elem_of_nil in Hext. }
  unfold Str.rfind. rewrite rfind_from_app_dot by (done || lia).
  unfold Str.len. rewrite length_app_str. simpl String.length. rewrite Hlen.
  assert (0 < String.length stem)%nat by (destruct stem; simpl; [done|lia]).
  destruct (Z.ltb_spec 0 (0 + Z.of_nat (String.length stem))); [|lia].
  destruct (Z.ltb_spec (0 + Z.of_nat (String.length stem))
              (Z.of_nat (String.length stem + 4) - 1)); [|lia].
  simpl andb. cbv iota. unfold Str.slice_from.
  replace (Z.to_nat (0 + Z.of_nat (String.length stem))) with (String.length stem) by lia.
  apply drop_app.
Qed.

(** ** Membership in the lists of [main] *)

Lemma list_filter_ext_in {A} (P Q : A → Prop)
    `{!∀ x, Decision (P x)} `{!∀ x, Decision (Q x)} (l : list A) :
  (∀ x, x ∈ l → P x ↔ Q x) → filter P l = filter Q l.
Proof.
  induction l as [|x l IH]; intros HPQ; [done|].
  rewrite !filter_cons.
  rewrite IH by (intros y Hy; apply HPQ; by right).
  destruct (decide (P x)) as [HP|HP], (decide (Q x)) as [HQ|HQ]; try done;
    exfalso; apply (HPQ x) in HP || apply (HPQ x) in HQ; done || by left.
Qed.


Lemma NoDup_rglob `{!Listing} (fs : gmap Path node) (root : Path) :
  NoDup (rglob fs root).
Proof.
  apply NoDup_filter. rewrite scandir_order_perm. apply NoDup_fst_map_to_list.
Qed.

Lemma elem_of_rglob `{!Listing} (fs : gmap Path node) (root p : Path) :
  p ∈ rglob fs root ↔ is_Some (fs !! p) ∧ below fs root p = true.
Proof.
  unfold rglob.
  rewrite list_elem_of_filter, scandir_order_perm, list_elem_of_fmap, Is_true_true.
  split.
  - intros [Hb ((q & n) & -> & Hin)]. apply elem_of_map_to_list in Hin.
    split; [by eexists|done].
  - intros [[n Hn] Hb]. split; [done|].
    exists (p, n). split; [done|]. by apply elem_of_map_to_list.
Qed.

Section Dispatch.

Context {lib : PdfLibrary} {ord : Listing} (here : Path).

Lemma NoDup_all_files (fs : gmap Path node) : NoDup (all_files_of here fs).
Proof. apply NoDup_filter, NoDup_rglob. Qed.

Lemma elem_of_pdf_files (all_files : list Path) (p : Path) :
  p ∈ pdf_files_of all_files ↔
  p ∈ all_files ∧ Str.lower (PurePath.suffix p) = ".pdf".
Proof. unfold pdf_files_of. rewrite list_elem_of_filter. tauto. Qed.

Lemma elem_of_other_files (all_files : list Path) (p : Path) :
  p ∈ other_files_of all_files ↔
  p ∈ all_files ∧ Str.lower (PurePath.suffix p) ≠ ".pdf".
Proof.
  unfold other_files_of. rewrite list_elem_of_filter, elem_of_pdf_files.
  tauto.
Qed.

Lemma other_files_alt (all_files : list Path) :
  other_files_of all_files
  = filter (λ p, ¬ Str.lower (PurePath.suffix p) = ".pdf") all_files.
Proof.
  unfold other_files_of. apply list_filter_ext_in. intros p Hp.
  rewrite elem_of_pdf_files. tauto.
Qed.

Lemma files_in_order_perm (all_files : list Path) :
  pdf_files_of all_files ++ other_files_of all_files ≡ₚ all_files.
Proof. rewrite other_files_alt. apply filter_app_complement. Qed.

(** C2. Among the regular files enumerated under the source root, those
    whose suffix is [".pdf"] in any letter case, and only those, are in
    the list [main] watermarks; all the others, those without a suffix
    included, are in the list [main] copies.  The two lists together hold
    every enumerated file exactly once. *)
Theorem dispatch_by_suffix (fs : gmap Path node) :
  let all_files := all_files_of here fs in
  let pdf_files := pdf_files_of all_files in
  let other_files := other_files_of all_files in
  (∀ p, p ∈ all_files →
        (p ∈ pdf_files ↔ Str.lower (PurePath.suffix p) = ".pdf")
        ∧ (p ∈ other_files ↔ Str.lower (PurePath.suffix p) ≠ ".pdf")
        ∧ (p ∈ pdf_files ↔ p ∉ other_files)
        ∧ (PurePath.suffix p = "" → p ∈ other_files))
  ∧ (∀ s, Str.lower s = ".pdf" ↔
          s ∈ [".pdf"; ".pdF"; ".pDf"; ".pDF"; ".Pdf"; ".PdF"; ".PDf"; ".PDF"])
  ∧ pdf_files ++ other_files ≡ₚ all_files
  ∧ NoDup (pdf_files ++ other_files).
Proof.
  intros all_files pdf_files other_files. split; [|split; [|split]].
  - intros p Hp. unfold pdf_files, other_files.
    rewrite elem_of_pdf_files, elem_of_other_files.
    split; [tauto|]. split; [tauto|]. split.
    + destruct (decide (Str.lower (PurePath.suffix p) = ".pdf")); tauto.
    + intros ->. split; [done|]. discriminate.
  - apply lower_pdf_iff.
  - apply files_in_order_perm.
  - unfold pdf_files, other_files. rewrite files_in_order_perm.
    apply NoDup_all_files.
Qed.

(** C10. A file whose whole name is [".pdf"] has an empty suffix, so it is
    not in the list of files to watermark and, when enumerated, it is in
    the list of files to copy; whereas a name with a non-empty stem before
    an extension spelled [".pdf"] in any letter case is watermarked. *)
Theorem dot_pdf_is_copied (fs : gmap Path node) (p : Path) :
  let all_files := all_files_of here fs in
  (PurePath.name p = ".pdf" →
     PurePath.suffix p = ""
     ∧ (p ∉ pdf_files_of all_files)
     ∧ (p ∈ all_files → p ∈ other_files_of all_files))
  ∧ (∀ stem ext, PurePath.name p = stem +:+ ext → stem ≠ "" →
       Str.lower ext = ".pdf" →
       PurePath.suffix p = ext ∧ (p ∈ all_files → p ∈ pdf_files_of all_files)).
Proof.
  intros all_files. split.
  - intros Hname.
    assert (Hs : PurePath.suffix p = "").
    { unfold PurePath.suffix. by rewrite Hname. }
    split; [done|].
    rewrite elem_of_pdf_files, elem_of_other_files, Hs. split; [|done].
    by intros [_ ?].
  - intros stem ext Hname Hstem Hext.
    pose proof (suffix_stem_pdf p stem ext Hname Hstem Hext) as Hs.
    split; [done|].
    intros Hp. apply elem_of_pdf_files. by rewrite Hs.
Qed.

End Dispatch.

(** ** Sequencing and frames *)

Lemma bind_inv {A B} (m : M A) (k : A → M B) w r w' :
  bind m k w = (r, w') →
  (∃ a w1, m w = (Ok a, w1) ∧ k a w1 = (r, w'))
  ∨ (∃ e, m w = (Raise e, w') ∧ r = Raise e).
Proof.
  unfold bind. destruct (m w) as [[a|e] w1]; intros H.
  - left. by exists a, w1.
  - right. exists e. by inversion H.
Qed.

Lemma bind_Ok_inv {A B} (m : M A) (k : A → M B) w b w' :
  bind m k w = (Ok b, w') →
  ∃ a w1, m w = (Ok a, w1) ∧ k a w1 = (Ok b, w').
Proof. intros H. apply bind_inv in H as [H | (e & _ & [=])]. done. Qed.

Lemma bind_Ok {A B} (m : M A) (k : A → M B) w a w1 :
  m w = (Ok a, w1) → bind m k w = k a w1.
Proof. unfold bind. by intros ->. Qed.

Lemma bind_Raise {A B} (m : M A) (k : A → M B) w e w1 :
  m w = (Raise e, w1) → bind m k w = (Raise e, w1).
Proof. unfold bind. by intros ->. Qed.

Lemma for_each_app {A} (l1 l2 : list A) (body : A → M unit) w :
  for_each (l1 ++ l2) body w = (for_each l1 body >> for_each l2 body) w.
Proof.
  revert w. induction l1 as [|x l1 IH]; intros w; simpl; [done|].
  unfold bind. destruct (body x w) as [[[]|e] w1]; [|done].
  rewrite IH. done.
Qed.


Lemma evolves_refl T D fs : evolves T D fs fs.
Proof. intros q. destruct (fs !! q) as [[d st|]|]; [exists d, st; auto|done|done]. Qed.

Lemma evolves_trans T D fs1 fs2 fs3 :
  evolves T D fs1 fs2 → evolves T D fs2 fs3 → evolves T D fs1 fs3.
Proof.
  intros H12 H23 q. specialize (H12 q). specialize (H23 q).
  destruct (fs1 !! q) as [[d1 st1|]|].
  - destruct H12 as (d2 & st2 & E2 & H12). rewrite E2 in H23.
    destruct H23 as (d3 & st3 & E3 & H23). exists d3, st3. split; [done|].
    destruct H12 as [?|[-> ->]]; [by left|]. done.
  - rewrite H12 in H23. done.
  - destruct (fs2 !! q) as [[d2 st2|]|].
    + destruct H23 as (d3 & st3 & -> & _). done.
    + by rewrite H23.
    + done.
Qed.

Lemma evolves_mono (T T' D D' : Path → Prop) fs fs' :
  (∀ q, T q → T' q) → (∀ q, D q → D' q) →
  evolves T D fs fs' → evolves T' D' fs fs'.
Proof.
  intros HT HD H q. specialize (H q).
  destruct (fs !! q) as [[d st|]|].
  - destruct H as (d' & st' & E & [?|?]); exists d', st'; auto.
  - done.
  - destruct (fs' !! q) as [[d st|]|]; auto.
Qed.

Lemma evolves_write T D fs p d st :
  T p → fs !! p ≠ Some NDir → evolves T D fs (<[p := NFile d st]> fs).
Proof.
  intros HT Hp q. destruct (decide (q = p)) as [->|Hne].
  - rewrite lookup_insert_eq. destruct (fs !! p) as [[d0 st0|]|]; [eauto|done|done].
  - rewrite lookup_insert_ne by done. apply evolves_refl.
Qed.

Lemma evolves_mkdir T D fs p :
  D p → fs !! p = None → evolves T D fs (<[p := NDir]> fs).
Proof.
  intros HD Hp q. destruct (decide (q = p)) as [->|Hne].
  - by rewrite lookup_insert_eq, Hp.
  - rewrite lookup_insert_ne by done. apply evolves_refl.
Qed.

Lemma changes_within_mono {A} (T T' D D' : Path → Prop) (m : M A) :
  (∀ q, T q → T' q) → (∀ q, D q → D' q) →
  changes_within T D m → changes_within T' D' m.
Proof. intros HT HD H w r w' Hm. eapply evolves_mono; eauto. Qed.

Lemma changes_within_pure {A} T D (m : M A) :
  (∀ w, ∃ r, m w = (r, w)) → changes_within T D m.
Proof.
  intros H w r w' Hm. destruct (H w) as [r0 E]. rewrite E in Hm.
  inversion Hm; subst. apply evolves_refl.
Qed.

Lemma changes_within_bind {A B} T D (m : M A) (k : A → M B) :
  changes_within T D m → (∀ a, changes_within T D (k a)) →
  changes_within T D (bind m k).
Proof.
  intros Hm Hk w r w' H.
  apply bind_inv in H as [(a & w1 & H1 & H2) | (e & H1 & _)].
  - eapply evolves_trans; [by eapply Hm | by eapply Hk].
  - by eapply Hm.
Qed.

Lemma changes_within_for_each {A} T D (l : list A) (body : A → M unit) :
  (∀ x, x ∈ l → changes_within T D (body x)) →
  changes_within T D (for_each l body).
Proof.
  induction l as [|x l IH]; intros Hb; simpl.
  - apply changes_within_pure. intros w. by eexists.
  - apply changes_within_bind; [apply Hb; by left|].
    intros _. apply IH. intros y Hy. apply Hb. by right.
Qed.

Lemma changes_within_for_fold {A S} T D (l : list A) (s : S) (body : S → A → M S) :
  (∀ s x, changes_within T D (body s x)) →
  changes_within T D (for_fold l s body).
Proof.
  intros Hb. revert s. induction l as [|x l IH]; intros s; simpl.
  - apply changes_within_pure. intros w. by eexists.
  - apply changes_within_bind; [apply Hb|]. intros s'. apply IH.
Qed.

Lemma syscall_files w r w' : syscall w = (r, w') → files w' = files w.
Proof.
  unfold syscall. destruct (faults w) as [|[k|] rest]; intros [= <- <-]; done.
Qed.

Lemma syscall_creat_stat w r w' : syscall w = (r, w') → creat_stat w' = creat_stat w.
Proof.
  unfold syscall. destruct (faults w) as [|[k|] rest]; intros [= <- <-]; done.
Qed.

Lemma changes_within_syscall T D : changes_within T D syscall.
Proof.
  intros w r w' H. apply syscall_files in H. rewrite H. apply evolves_refl.
Qed.

Lemma print_files {con : Console} args w r w' :
  print args w = (r, w') → files w' = files w.
Proof.
  unfold print. destruct (print_text args) as [s [|]]; [|destruct s];
    intros [= <- <-]; done.
Qed.

Lemma changes_within_print {con : Console} T D args :
  changes_within T D (print args).
Proof.
  intros w r w' H. apply print_files in H. rewrite H. apply evolves_refl.
Qed.

Lemma changes_within_read_bytes T D p : changes_within T D (read_bytes p).
Proof.
  apply changes_within_bind; [apply changes_within_syscall|]. intros _.
  apply changes_within_pure. intros w.
  destruct (files w !! p) as [[d st|]|]; by eexists.
Qed.

Lemma changes_within_open_wb (T D : Path → Prop) p :
  T p → changes_within T D (open_wb p).
Proof.
  intros HT. apply changes_within_bind; [apply changes_within_syscall|]. intros _.
  intros w r w'. destruct p as [|c p0]; [intros [= <- <-]; apply evolves_refl|].
  destruct (negb _); [intros [= <- <-]; apply evolves_refl|].
  destruct (files w !! (c :: p0)) as [[d st|]|] eqn:E; intros [= <- <-]; simpl.
  - apply evolves_write; [done|by rewrite E].
  - apply evolves_refl.
  - apply evolves_write; [done|by rewrite E].
Qed.

Lemma changes_within_write_handle (T D : Path → Prop) p data :
  T p → changes_within T D (write_handle p data).
Proof.
  intros HT. apply changes_within_bind; [apply changes_within_syscall|]. intros _.
  intros w r w'.
  destruct (files w !! p) as [[d st|]|] eqn:E; intros [= <- <-]; simpl;
    try apply evolves_refl.
  apply evolves_write; [done|by rewrite E].
Qed.

Lemma changes_within_ensure_dir (T D : Path → Prop) p q :
  D q → changes_within T D (ensure_dir p q).
Proof.
  intros HD w r w'. unfold ensure_dir.
  destruct (files w !! q) as [[d st|]|] eqn:E; try (intros [= <- <-]; apply evolves_refl).
  intros H. apply bind_inv in H as [([] & w1 & H1 & [= <- <-]) | (e & H1 & _)].
  - apply syscall_files in H1. simpl. rewrite H1. by apply evolves_mkdir.
  - apply syscall_files in H1. rewrite H1. apply evolves_refl.
Qed.

Lemma changes_within_mkdir (T D : Path → Prop) p :
  (∀ q, q ∈ prefixes p → D q) →
  changes_within T D (Path_mkdir_parents_exist_ok p).
Proof.
  intros HD. apply changes_within_for_each. intros q Hq.
  apply changes_within_ensure_dir. auto.
Qed.

Lemma changes_within_copyfile (T D : Path → Prop) src dst :
  T dst → changes_within T D (shutil_copyfile src dst).
Proof.
  intros HT. unfold shutil_copyfile. destruct (decide (src = dst)).
  { apply changes_within_pure. intros w. by eexists. }
  apply changes_within_bind; [apply changes_within_read_bytes|]. intros d.
  apply changes_within_bind; [by apply changes_within_open_wb|]. intros _.
  by apply changes_within_write_handle.
Qed.

Lemma changes_within_copystat (T D : Path → Prop) src dst :
  T dst → changes_within T D (shutil_copystat src dst).
Proof.
  intros HT. apply changes_within_bind; [apply changes_within_syscall|]. intros _.
  intros w r w'.
  destruct (files w !! src) as [[d st|]|];
    destruct (files w !! dst) as [[d' st'|]|] eqn:E; intros [= <- <-]; simpl;
    try apply evolves_refl.
  apply evolves_write; [done|by rewrite E].
Qed.

Lemma changes_within_copy2 (T D : Path → Prop) src dst :
  T dst → T (PurePath.joinpath dst [PurePath.name src]) →
  changes_within T D (shutil_copy2 src dst).
Proof.
  intros HT1 HT2. unfold shutil_copy2.
  apply changes_within_bind.
  { apply changes_within_pure. intros w. by eexists. }
  intros b.
  assert (T (if b then PurePath.joinpath dst [PurePath.name src] else dst))
    by by destruct b.
  apply changes_within_bind; [by apply changes_within_copyfile|]. intros _.
  apply changes_within_bind; [by apply changes_within_copystat|]. intros _.
  apply changes_within_pure. intros w. by eexists.
Qed.

(** ** Paths *)

Lemma strip_prefix_app (base rel : Path) :
  PurePath.strip_prefix base (base ++ rel) = Some rel.
Proof.
  induction base as [|b base IH]; simpl; [by destruct rel|].
  by rewrite decide_True.
Qed.

Lemma strip_prefix_Some (base p rel : Path) :
  PurePath.strip_prefix base p = Some rel → p = base ++ rel.
Proof.
  revert p. induction base as [|b base IH]; intros p; simpl.
  - destruct p; by intros [= ->].
  - destruct p as [|c p]; [done|]. destruct (decide (b = c)) as [->|]; [|done].
    intros H. by rewrite (IH _ H).
Qed.

Lemma elem_of_prefixes (p q : Path) :
  q ∈ prefixes p ↔ q ≠ [] ∧ ∃ k, p = q ++ k.
Proof.
  revert q. induction p as [|c p IH]; intros q; simpl.
  - split; [by intros ?%elem_of_nil|]. intros [Hq [k Hk]].
    symmetry in Hk. apply app_eq_nil in Hk as [-> _]. done.
  - rewrite elem_of_cons, list_elem_of_fmap. split.
    + intros [-> | (q' & -> & Hq')]; (split; [done|]).
      * by exists p.
      * apply IH in Hq' as [_ [k ->]]. by exists k.
    + intros [Hq [k Hk]]. destruct q as [|c' q]; [done|].
      injection Hk as <- ->. destruct q as [|c2 q]; [by left|].
      right. exists (c2 :: q). split; [done|]. apply IH. split; [done|by exists k].
Qed.

Lemma parent_app (root rel : Path) :
  rel ≠ [] → PurePath.parent (root ++ rel) = root ++ PurePath.parent rel.
Proof. intros H. unfold PurePath.parent. by apply removelast_app. Qed.

Lemma parent_snoc (p : Path) (c : string) : PurePath.parent (p ++ [c]) = p.
Proof. unfold PurePath.parent. apply removelast_last. Qed.

Lemma snoc_parent_name (p : Path) :
  p ≠ [] → p = PurePath.parent p ++ [PurePath.name p].
Proof. intros H. by apply app_removelast_last. Qed.

(** The non-empty strict prefixes of [p] are the prefixes of its parent. *)
Lemma elem_of_prefixes_parent (p q : Path) :
  q ∈ prefixes (PurePath.parent p) ↔ q ≠ [] ∧ ∃ k, k ≠ [] ∧ p = q ++ k.
Proof.
  rewrite elem_of_prefixes. split.
  - intros [Hq [k Hk]]. split; [done|].
    destruct p as [|c p] using rev_ind.
    { simpl in Hk. symmetry in Hk. by apply app_eq_nil in Hk as [-> _]. }
    rewrite parent_snoc in Hk. subst p. exists (k ++ [c]).
    split; [by destruct k|]. by rewrite app_assoc.
  - intros [Hq (k & Hk & ->)]. split; [done|].
    destruct k as [|c k] using rev_ind; [done|].
    rewrite app_assoc, parent_snoc. by exists k.
Qed.

Lemma reachable_spec (fs : gmap Path node) (root rest : Path) :
  reachable fs root rest = true ↔
  rest ≠ [] ∧ ∀ a b, rest = a ++ b → a ≠ [] → b ≠ [] → fs !! (root ++ a) = Some NDir.
Proof.
  revert root. induction rest as [|c rest IH]; intros root.
  { simpl. split; [done|]. by intros [? _]. }
  destruct rest as [|c2 rest].
  { simpl. split; [|done]. intros _. split; [done|].
    intros a b Hab Ha Hb. destruct a as [|x a]; [done|].
    injection Hab as -> Hab. symmetry in Hab.
    apply app_eq_nil in Hab as [_ ->]. done. }
  change (reachable fs root (c :: c2 :: rest))
    with (match fs !! (root ++ [c]) with
          | Some NDir => reachable fs (root ++ [c]) (c2 :: rest)
          | _ => false
          end).
  split.
  - destruct (fs !! (root ++ [c])) as [[|]|] eqn:E; try done.
    intros H. apply IH in H as [_ H]. split; [done|].
    intros a b Hab Ha Hb. destruct a as [|x a]; [done|].
    injection Hab as <- Hab. destruct a as [|y a]; [done|].
    specialize (H (y :: a) b Hab). rewrite <- app_assoc in H. apply H; done.
  - intros [_ H].
    rewrite (H [c] (c2 :: rest)) by done.
    apply IH. split; [done|]. intros a b Hab Ha Hb.
    rewrite <- app_assoc. apply (H (c :: a) b); [by rewrite Hab|done|done].
Qed.

(** ** What the calls leave behind when they succeed *)

Lemma is_dir_in_false (fs : gmap Path node) (p : Path) :
  p ≠ [] → fs !! p ≠ Some NDir → is_dir_in fs p = false.
Proof.
  intros Hp Hd. unfold is_dir_in. destruct p; [done|].
  by destruct (fs !! _) as [[|]|].
Qed.

Lemma read_bytes_Ok p w d w' :
  read_bytes p w = (Ok d, w') →
  files w' = files w ∧ ∃ st, files w !! p = Some (NFile d st).
Proof.
  intros H. apply bind_Ok_inv in H as ([] & w1 & H1 & H2).
  apply syscall_files in H1. rewrite <- H1.
  destruct (files w1 !! p) as [[d0 st|]|]; inversion H2; subst. eauto.
Qed.

Lemma open_wb_Ok p w w' :
  open_wb p w = (Ok tt, w') →
  is_dir_in (files w) (PurePath.parent p) = true
  ∧ ∃ st, files w' = <[p := NFile [] st]> (files w) ∧ files w !! p ≠ Some NDir.
Proof.
  intros H. apply bind_Ok_inv in H as ([] & w1 & H1 & H2).
  apply syscall_files in H1. rewrite <- H1.
  destruct p as [|c p]; [done|].
  destruct (is_dir_in (files w1) (PurePath.parent (c :: p))); [|done].
  split; [done|]. simpl in H2.
  destruct (files w1 !! (c :: p)) as [[d0 st|]|]; inversion H2; subst; simpl; eauto.
Qed.

Lemma write_handle_Ok p data w w' :
  write_handle p data w = (Ok tt, w') →
  ∃ d0 st, files w !! p = Some (NFile d0 st)
           ∧ files w' = <[p := NFile data (written w st)]> (files w).
Proof.
  intros H. apply bind_Ok_inv in H as ([] & w1 & H1 & H2).
  pose proof (syscall_creat_stat _ _ _ H1) as Hc.
  apply syscall_files in H1. rewrite <- H1.
  destruct (files w1 !! p) as [[d0 st|]|]; inversion H2; subst; simpl; [|done..].
  exists d0, st. split; [done|]. unfold written. by rewrite Hc.
Qed.

Lemma ensure_dir_Ok p q w w' :
  ensure_dir p q w = (Ok tt, w') → files w' !! q = Some NDir.
Proof.
  unfold ensure_dir. destruct (files w !! q) as [[d st|]|] eqn:E.
  - done.
  - by intros [= <-].
  - intros H. apply bind_Ok_inv in H as ([] & w1 & H1 & [= <-]). simpl.
    apply lookup_insert_eq.
Qed.

Lemma evolves_dir T D fs fs' q :
  evolves T D fs fs' → fs !! q = Some NDir → fs' !! q = Some NDir.
Proof. intros H E. specialize (H q). by rewrite E in H. Qed.

Lemma evolves_file T D fs fs' q d st :
  evolves T D fs fs' → fs !! q = Some (NFile d st) →
  ∃ d' st', fs' !! q = Some (NFile d' st') ∧ (T q ∨ (d' = d ∧ st' = st)).
Proof. intros H E. specialize (H q). by rewrite E in H. Qed.

Lemma evolves_file_same T D fs fs' q d st :
  evolves T D fs fs' → ¬ T q → fs !! q = Some (NFile d st) →
  fs' !! q = Some (NFile d st).
Proof.
  intros H HT E. destruct (evolves_file _ _ _ _ _ _ _ H E) as (d' & st' & E' & [?|[-> ->]]);
    done.
Qed.

Lemma mkdir_Ok p w w' :
  Path_mkdir_parents_exist_ok p w = (Ok tt, w') →
  ∀ q, q ∈ prefixes p → files w' !! q = Some NDir.
Proof.
  unfold Path_mkdir_parents_exist_ok. generalize (prefixes p) at 1 2. intros l.
  revert w. induction l as [|x l IH]; intros w H q Hq.
  { by apply elem_of_nil in Hq. }
  simpl in H. apply bind_Ok_inv in H as ([] & w1 & H1 & H2).
  apply elem_of_cons in Hq as [-> | Hq]; [|by eapply IH].
  apply ensure_dir_Ok in H1.
  assert (Hev : changes_within (λ _, True) (λ _, True) (for_each l (ensure_dir p))).
  { apply changes_within_for_each. intros. by apply changes_within_ensure_dir. }
  eapply evolves_dir; [by eapply Hev|done].
Qed.

Lemma copyfile_Ok src dst w w' :
  shutil_copyfile src dst w = (Ok tt, w') →
  src ≠ dst
  ∧ ∃ d st st', files w !! src = Some (NFile d st)
                ∧ files w' !! src = Some (NFile d st)
                ∧ files w' !! dst = Some (NFile d st').
Proof.
  unfold shutil_copyfile. destruct (decide (src = dst)) as [|Hne]; [done|].
  intros H. split; [done|].
  apply bind_Ok_inv in H as (d & w1 & H1 & H).
  apply bind_Ok_inv in H as ([] & w2 & H2 & H3).
  apply read_bytes_Ok in H1 as [E1 [st Hsrc]].
  apply open_wb_Ok in H2 as [_ (st1 & E2 & _)].
  apply write_handle_Ok in H3 as (d0 & st' & Hdst & E3).
  exists d, st, (written w2 st'). split; [done|].
  rewrite E3, E2, E1. rewrite lookup_insert_eq.
  by rewrite !lookup_insert_ne by done.
Qed.

Lemma copystat_Ok src dst w w' :
  shutil_copystat src dst w = (Ok tt, w') →
  ∃ d0 st d st0, files w !! src = Some (NFile d0 st)
                 ∧ files w !! dst = Some (NFile d st0)
                 ∧ files w' = <[dst := NFile d st]> (files w).
Proof.
  intros H. apply bind_Ok_inv in H as ([] & w1 & H1 & H2).
  apply syscall_files in H1. rewrite <- H1.
  destruct (files w1 !! src) as [[d0 st|]|]; [|done|done].
  destruct (files w1 !! dst) as [[d st0|]|]; [|done|done].
  inversion H2; subst. by exists d0, st, d, st0.
Qed.

Lemma copy2_Ok src dst w dst' w' :
  shutil_copy2 src dst w = (Ok dst', w') →
  dst' = copy2_target (files w) src dst
  ∧ ∃ d st, files w !! src = Some (NFile d st)
            ∧ files w' !! dst' = Some (NFile d st).
Proof.
  unfold shutil_copy2. intros H.
  apply bind_Ok_inv in H as (b & w0 & Hb & Hk).
  injection Hb as <- <-.
  apply bind_Ok_inv in Hk as ([] & w1 & H1 & Hk).
  apply bind_Ok_inv in Hk as ([] & w2 & H2 & Hr).
  injection Hr as <- <-.
  split; [done|]. fold (copy2_target (files w) src dst) in *.
  apply copyfile_Ok in H1 as (Hne & d & st & st' & Hsrc & Hsrc1 & Hdst1).
  apply copystat_Ok in H2 as (d0 & st0 & d1 & st1 & Hs & Hd & E).
  rewrite Hsrc1 in Hs. rewrite Hdst1 in Hd. simplify_eq.
  exists d0, st0. split; [done|]. rewrite E. apply lookup_insert_eq.
Qed.

Section Watermarker.

Context {lib : PdfLibrary}.

(** The page loop of [watermark_pdf] always runs to its end, leaves the
    world alone, and adds to the writer one merged page per input page,
    in the order of the input. *)
Lemma stamp_loop (stamp_page : PageObject) (pages writer : list PageObject) w :
  ∃ out,
    for_fold pages writer (stamp_one stamp_page) w = (Ok (writer ++ out), w)
    ∧ length out = length pages
    ∧ ∀ i page, pages !! i = Some page →
        ∃ ctm, scale_stamp_to_page stamp_page page = Ok ctm
               ∧ out !! i = Some (merge_transformed_page page stamp_page ctm true).
Proof.
  revert writer. induction pages as [|pg pages IH]; intros writer.
  { exists []. simpl. rewrite app_nil_r. done. }
  destruct (scale_stamp_to_page_total stamp_page pg) as [ctm Hctm].
  destruct (IH (writer ++ [merge_transformed_page pg stamp_page ctm true]))
    as (out & Hrun & Hlen & Hout).
  exists (merge_transformed_page pg stamp_page ctm true :: out).
  split; [|split].
  - simpl. unfold bind, stamp_one at 1, bind, lift. rewrite Hctm. unfold ret at 1.
    rewrite Hrun. by rewrite <- app_assoc.
  - simpl. by rewrite Hlen.
  - intros [|i] page Hi; simpl in *.
    + injection Hi as <-. by exists ctm.
    + by apply Hout.
Qed.

Lemma changes_within_watermark_pdf (T D : Path → Prop) input output stamp_page :
  T output → (∀ q, q ∈ prefixes (PurePath.parent output) → D q) →
  changes_within T D (watermark_pdf input output stamp_page).
Proof.
  intros HT HD. unfold watermark_pdf.
  apply changes_within_bind.
  { apply changes_within_bind; [apply changes_within_read_bytes|]. intros d.
    apply changes_within_pure. intros w. destruct (pdf_parse d); by eexists. }
  intros pages. apply changes_within_bind.
  { apply changes_within_pure. intros w.
    destruct (stamp_loop stamp_page pages [] w) as (out & -> & _). by eexists. }
  intros writer.
  apply changes_within_bind; [by apply changes_within_mkdir|]. intros _.
  apply changes_within_bind; [by apply changes_within_open_wb|]. intros _.
  by apply changes_within_write_handle.
Qed.

Lemma watermark_pdf_Ok input output stamp_page w w' :
  watermark_pdf input output stamp_page w = (Ok tt, w') →
  ∃ d st pages writer st',
    files w !! input = Some (NFile d st)
    ∧ pdf_parse d = Some pages
    ∧ length writer = length pages
    ∧ (∀ i page, pages !! i = Some page →
         ∃ ctm, scale_stamp_to_page stamp_page page = Ok ctm
                ∧ writer !! i = Some (merge_transformed_page page stamp_page ctm true))
    ∧ files w' !! output = Some (NFile (pdf_serialize writer) st')
    ∧ ∀ q, q ∈ prefixes (PurePath.parent output) → files w' !! q = Some NDir.
Proof.
  unfold watermark_pdf. intros H.
  apply bind_Ok_inv in H as (pages & w1 & H1 & H).
  apply bind_Ok_inv in H1 as (d & w1' & Hrd & Hparse).
  apply read_bytes_Ok in Hrd as [E1 [st Hin]].
  destruct (pdf_parse d) as [pages'|] eqn:Hp; [|done]. injection Hparse as -> ->.
  apply bind_Ok_inv in H as (writer & w2 & H2 & H).
  destruct (stamp_loop stamp_page pages [] w1) as (out & Hrun & Hlen & Hout).
  rewrite Hrun in H2. injection H2 as <- <-.
  apply bind_Ok_inv in H as ([] & w3 & H3 & H).
  apply bind_Ok_inv in H as ([] & w4 & H4 & H5).
  exists d, st, pages, out.
  pose proof (mkdir_Ok _ _ _ H3) as Hdirs.
  apply open_wb_Ok in H4 as [_ (st4 & E4 & _)].
  unfold PdfWriter_write in H5.
  apply write_handle_Ok in H5 as (d5 & st' & Hd5 & E5).
  exists (written w4 st'). repeat split; try done.
  - rewrite E5. apply lookup_insert_eq.
  - intros q Hq. specialize (Hdirs q Hq).
    assert (q ≠ output).
    { intros ->. rewrite E4, lookup_insert_eq in Hd5.
      apply elem_of_prefixes_parent in Hq as [_ (k & Hk & Hq)].
      apply (f_equal length) in Hq. rewrite length_app in Hq.
      destruct k; [done|]. simpl in Hq. lia. }
    rewrite E5, E4. by rewrite !lookup_insert_ne by done.
Qed.

End Watermarker.

(** ** The files of the source tree and their output paths *)

Section Run.

Context {lib : PdfLibrary} {ord : Listing} {con : Console} (here : Path).

Local Abbreviation SRC := (SOURCE_FOLDER here).
Local Abbreviation OUT := (OUTPUT_FOLDER here).

Lemma source_output_apart (a b : Path) : SRC ++ a ≠ OUT ++ b.
Proof.
  unfold SOURCE_FOLDER, OUTPUT_FOLDER, PurePath.joinpath.
  rewrite <- !app_assoc. intros H. apply app_inv_head in H. done.
Qed.

Lemma output_nonempty (rel : Path) : OUT ++ rel ≠ [].
Proof.
  unfold OUTPUT_FOLDER, PurePath.joinpath. rewrite <- app_assoc.
  intros [_ [=]]%app_eq_nil.
Qed.

Lemma out_path_source (rel : Path) : out_path here (SRC ++ rel) = OUT ++ rel.
Proof. unfold out_path, PurePath.joinpath. by rewrite drop_app_length. Qed.

Lemma elem_of_all_files (fs : gmap Path node) (p : Path) :
  p ∈ all_files_of here fs ↔
  ∃ rel, p = SRC ++ rel ∧ reachable fs SRC rel = true ∧ is_file_in fs p = true.
Proof.
  unfold all_files_of. rewrite list_elem_of_filter, elem_of_rglob, Is_true_true.
  unfold below. split.
  - intros (Hf & _ & Hb).
    destruct (PurePath.strip_prefix (SOURCE_FOLDER here) p) as [rel|] eqn:E; [|done].
    apply strip_prefix_Some in E. by exists rel.
  - intros (rel & -> & Hr & Hf). split; [done|]. split.
    + unfold is_file_in in Hf. destruct (fs !! (SRC ++ rel)); [by eexists|done].
    + by rewrite strip_prefix_app.
Qed.

Lemma all_files_is_file (fs : gmap Path node) (p : Path) :
  p ∈ all_files_of here fs → ∃ d st, fs !! p = Some (NFile d st).
Proof.
  intros (rel & _ & _ & Hf)%elem_of_all_files. unfold is_file_in in Hf.
  destruct (fs !! p) as [[d st|]|]; [eauto|done|done].
Qed.

(** No enumerated file lies below another enumerated file. *)
Lemma all_files_prefix_free (fs : gmap Path node) (p k : Path) :
  p ∈ all_files_of here fs → p ++ k ∈ all_files_of here fs → k = [].
Proof.
  intros Hp (rel2 & E2 & Hr2 & _)%elem_of_all_files.
  destruct (all_files_is_file _ _ Hp) as (d & st & Hd).
  apply elem_of_all_files in Hp as (rel & -> & Hr & _).
  rewrite <- app_assoc in E2. apply app_inv_head in E2. subst rel2.
  destruct k as [|c k]; [done|]. exfalso.
  apply reachable_spec in Hr2 as [_ Hr2]. apply reachable_spec in Hr as [Hrel _].
  rewrite (Hr2 rel (c :: k)) in Hd; done.
Qed.

Lemma out_path_inj (fs : gmap Path node) (p1 p2 : Path) :
  p1 ∈ all_files_of here fs → p2 ∈ all_files_of here fs →
  out_path here p1 = out_path here p2 → p1 = p2.
Proof.
  intros (r1 & -> & _)%elem_of_all_files (r2 & -> & _)%elem_of_all_files.
  rewrite !out_path_source. by intros ->%app_inv_head.
Qed.

Lemma out_path_not_nested (fs : gmap Path node) (p1 p2 k : Path) :
  p1 ∈ all_files_of here fs → p2 ∈ all_files_of here fs →
  out_path here p1 = out_path here p2 ++ k → k = [].
Proof.
  intros H1 H2 E. eapply (all_files_prefix_free fs p2); [done|].
  apply elem_of_all_files in H1 as (r1 & -> & Hr1).
  apply elem_of_all_files in H2 as (r2 & -> & Hr2).
  rewrite !out_path_source, <- app_assoc in E. apply app_inv_head in E. subst r1.
  rewrite <- app_assoc. apply elem_of_all_files. by exists (r2 ++ k).
Qed.

Lemma source_not_touched (ps : list Path) (rel : Path) :
  (∀ p, p ∈ ps → ∃ r, p = SRC ++ r) → ¬ touched here ps (SRC ++ rel).
Proof.
  intros Hps (p & Hp & Hq). destruct (Hps p Hp) as [r ->].
  rewrite out_path_source in Hq. destruct Hq as [Hq|Hq].
  - by apply source_output_apart in Hq.
  - rewrite <- app_assoc in Hq. by apply source_output_apart in Hq.
Qed.

Lemma touched_mono (ps ps' : list Path) (q : Path) :
  ps ⊆ ps' → touched here ps q → touched here ps' q.
Proof. intros Hs (p & Hp & Hq). exists p. split; [by apply Hs|done]. Qed.

Lemma made_dirs_mono (ps ps' : list Path) (q : Path) :
  ps ⊆ ps' → made_dirs here ps q → made_dirs here ps' q.
Proof. intros Hs (p & Hp & Hq). exists p. split; [by apply Hs|done]. Qed.

(** ** Frames of the loop bodies *)

Lemma relative_to_inv (p base : Path) w r w' :
  relative_to p base w = (r, w') →
  w' = w ∧ (∀ rel, r = Ok rel → p = base ++ rel).
Proof.
  unfold relative_to. destruct (PurePath.strip_prefix base p) as [rel|] eqn:E.
  - intros [= <- <-]. split; [done|]. intros ? [= <-]. by apply strip_prefix_Some.
  - intros [= <- <-]. done.
Qed.

Lemma changes_within_relative_to T D (p base : Path) :
  changes_within T D (relative_to p base).
Proof.
  apply changes_within_pure. intros w. unfold relative_to.
  destruct (PurePath.strip_prefix base p); by eexists.
Qed.

Lemma changes_within_do_pdf (T D : Path → Prop) stamp_page p :
  T (out_path here p) →
  (∀ q, q ∈ prefixes (PurePath.parent (out_path here p)) → D q) →
  changes_within T D (do_pdf here stamp_page p).
Proof.
  intros HT HD w r w' H. unfold do_pdf in H.
  apply bind_inv in H as [(rel & w1 & H1 & H) | (e & H1 & _)].
  - apply relative_to_inv in H1 as [-> Hrel]. specialize (Hrel rel eq_refl). subst p.
    rewrite out_path_source in HT, HD.
    revert H. apply changes_within_bind; [apply changes_within_print|]. intros _.
    by apply changes_within_watermark_pdf.
  - apply relative_to_inv in H1 as [-> _]. apply evolves_refl.
Qed.

Lemma changes_within_do_other (T D : Path → Prop) p :
  T (out_path here p) → T (out_path here p ++ [PurePath.name p]) →
  (∀ q, q ∈ prefixes (PurePath.parent (out_path here p)) → D q) →
  changes_within T D (do_other here p).
Proof.
  intros HT HT2 HD w r w' H. unfold do_other in H.
  apply bind_inv in H as [(rel & w1 & H1 & H) | (e & H1 & _)].
  - apply relative_to_inv in H1 as [-> Hrel]. specialize (Hrel rel eq_refl). subst p.
    rewrite out_path_source in HT, HT2, HD.
    revert H. apply changes_within_bind; [by apply changes_within_mkdir|]. intros _.
    apply changes_within_bind; [by apply changes_within_copy2|]. intros _.
    apply changes_within_print.
  - apply relative_to_inv in H1 as [-> _]. apply evolves_refl.
Qed.

Lemma changes_within_do_file (T D : Path → Prop) all_files stamp_page p :
  T (out_path here p) → T (out_path here p ++ [PurePath.name p]) →
  (∀ q, q ∈ prefixes (PurePath.parent (out_path here p)) → D q) →
  changes_within T D (do_file here all_files stamp_page p).
Proof.
  intros. unfold do_file. case_decide.
  - by apply changes_within_do_pdf.
  - by apply changes_within_do_other.
Qed.

Lemma changes_within_files (all_files : list Path) stamp_page (ps : list Path) :
  changes_within (touched here ps) (made_dirs here ps)
    (for_each ps (do_file here all_files stamp_page)).
Proof.
  apply changes_within_for_each. intros p Hp.
  apply changes_within_do_file.
  - exists p. auto.
  - exists p. auto.
  - intros q Hq. by exists p.
Qed.

(** ** What the loop bodies leave behind when they succeed *)

Lemma print_inv args w r w' :
  print args w = (r, w') →
  (r = Ok tt ∨ r = Raise UnicodeEncodeError) ∧ files w' = files w.
Proof.
  intros H. split; [|by eapply print_files].
  unfold print in H. destruct (print_text args) as [s [|]];
    injection H as <- _; auto.
Qed.

Lemma mirrored_source fs0 fs0' fs' stamp_page p :
  fs0 !! p = fs0' !! p →
  is_dir_in fs0 (out_path here p) = is_dir_in fs0' (out_path here p) →
  mirrored here fs0' fs' stamp_page p → mirrored here fs0 fs' stamp_page p.
Proof.
  intros E Ed [Hd Hm]. split; [done|]. unfold copy2_target in *. by rewrite E, Ed.
Qed.

Lemma mirrored_evolves (T D : Path → Prop) fs0 fs1 fs2 stamp_page p :
  mirrored here fs0 fs1 stamp_page p → evolves T D fs1 fs2 →
  ¬ T (out_path here p) → ¬ T (out_path here p ++ [PurePath.name p]) →
  mirrored here fs0 fs2 stamp_page p.
Proof.
  intros [Hd (d & st & Hsrc & Hm)] Hev HT HT2. split.
  - intros q Hq. eapply evolves_dir; eauto.
  - exists d, st. split; [done|]. case_decide.
    + destruct Hm as (pages & writer & st' & Hp & Hs & Hout).
      exists pages, writer, st'. split; [done|]. split; [done|].
      by eapply evolves_file_same.
    + eapply evolves_file_same; [done| |done].
      unfold copy2_target, PurePath.joinpath. by destruct (is_dir_in _ _).
Qed.

Lemma do_pdf_mirrored stamp_page p w w' :
  do_pdf here stamp_page p w = (Ok tt, w') →
  Str.lower (PurePath.suffix p) = ".pdf" →
  mirrored here (files w) (files w') stamp_page p.
Proof.
  unfold do_pdf. intros Hrun Hpdf.
  apply bind_Ok_inv in Hrun as (rel & w0 & H0 & Hrun).
  apply relative_to_inv in H0 as [-> Hrel]. specialize (Hrel rel eq_refl). subst p.
  apply bind_Ok_inv in Hrun as ([] & w1 & H1 & Hrun).
  apply print_inv in H1 as [_ E1].
  apply watermark_pdf_Ok in Hrun
    as (d & st & pages & writer & st' & Hin & Hp & Hlen & Hpages & Hout & Hdirs).
  rewrite E1 in Hin. unfold mirrored. rewrite out_path_source.
  unfold PurePath.joinpath in *. split; [done|].
  exists d, st. split; [done|]. rewrite decide_True by done.
  by exists pages, writer, st'.
Qed.

Lemma evolves_is_dir (T D : Path → Prop) fs fs' p :
  evolves T D fs fs' → ¬ D p → is_dir_in fs' p = is_dir_in fs p.
Proof.
  intros Hev HD. unfold is_dir_in. destruct p as [|c p]; [done|].
  specialize (Hev (c :: p)).
  destruct (fs !! (c :: p)) as [[d st|]|].
  - by destruct Hev as (? & ? & -> & _).
  - by rewrite Hev.
  - by destruct (fs' !! (c :: p)) as [[|]|].
Qed.

Lemma not_prefix_of_own_parent (p : Path) : p ∉ prefixes (PurePath.parent p).
Proof.
  intros [_ (k & Hk & Hp)]%elem_of_prefixes_parent.
  apply (f_equal length) in Hp. rewrite length_app in Hp.
  destruct k; [done|]. simpl in Hp. lia.
Qed.

Lemma mkdir_is_dir p w r w' :
  Path_mkdir_parents_exist_ok (PurePath.parent p) w = (r, w') →
  is_dir_in (files w') p = is_dir_in (files w) p.
Proof.
  intros Hrun.
  eapply (evolves_is_dir (λ _, False) (λ q, q ∈ prefixes (PurePath.parent p))).
  - revert Hrun. by apply changes_within_mkdir.
  - apply not_prefix_of_own_parent.
Qed.

Lemma mkdir_keeps_files p w r w' q d st :
  Path_mkdir_parents_exist_ok p w = (r, w') →
  files w' !! q = Some (NFile d st) → files w !! q = Some (NFile d st).
Proof.
  intros Hrun Hq.
  assert (Hev : evolves (λ _, False) (λ _, True) (files w) (files w')).
  { revert Hrun. by apply changes_within_mkdir. }
  specialize (Hev q). rewrite Hq in Hev.
  destruct (files w !! q) as [[d0 st0|]|]; [|done|done].
  destruct Hev as (? & ? & [= <- <-] & [[]|[-> ->]]). done.
Qed.

Lemma do_other_mirrored stamp_page p w w' :
  do_other here p w = (Ok tt, w') →
  Str.lower (PurePath.suffix p) ≠ ".pdf" →
  mirrored here (files w) (files w') stamp_page p.
Proof.
  unfold do_other. intros Hrun Hpdf.
  apply bind_Ok_inv in Hrun as (rel & w0 & H0 & Hrun).
  apply relative_to_inv in H0 as [-> Hrel]. specialize (Hrel rel eq_refl). subst p.
  unfold mirrored. rewrite out_path_source in *. unfold PurePath.joinpath in *.
  apply bind_Ok_inv in Hrun as ([] & w1 & H1 & Hrun).
  apply bind_Ok_inv in Hrun as (dst & w2 & H2 & Hrun).
  apply print_inv in Hrun as [_ E3].
  pose proof (mkdir_Ok _ _ _ H1) as Hdirs.
  pose proof (mkdir_is_dir _ _ _ _ H1) as Hsame.
  pose proof H2 as Hfr.
  apply (changes_within_copy2 (λ _, True) (λ _, False)) in Hfr; [|done|done].
  apply copy2_Ok in H2 as (Hdst & d & st & Hsrc & Hout).
  assert (dst = copy2_target (files w) (SRC ++ rel) (OUT ++ rel)) as ->.
  { rewrite Hdst. unfold copy2_target. by rewrite Hsame. }
  eapply mkdir_keeps_files in Hsrc; [|done].
  split.
  - intros q Hq. rewrite E3. eapply evolves_dir; eauto.
  - exists d, st. split; [done|]. rewrite decide_False by done. by rewrite E3.
Qed.

Lemma do_file_mirrored all_files stamp_page p w w' :
  do_file here all_files stamp_page p w = (Ok tt, w') →
  p ∈ all_files →
  mirrored here (files w) (files w') stamp_page p.
Proof.
  unfold do_file. intros Hrun Hp. case_decide as Hpdf.
  - apply do_pdf_mirrored; [done|]. by apply elem_of_pdf_files in Hpdf as [_ ?].
  - apply do_other_mirrored; [done|]. intros Hs. apply Hpdf.
    by apply elem_of_pdf_files.
Qed.

(** Processing one enumerated file makes no directory at the output path of
    another enumerated file, nor writes to a source file. *)
Lemma made_dirs_not_output (fs0 : gmap Path node) (ps : list Path) (y : Path) :
  ps ⊆ all_files_of here fs0 → y ∈ all_files_of here fs0 →
  ¬ made_dirs here ps (out_path here y).
Proof.
  intros Hps Hy (x & Hx & Hq).
  apply elem_of_prefixes_parent in Hq as [_ (k & Hk & Hq)].
  apply Hk. eapply out_path_not_nested; [by apply Hps|done|done].
Qed.

Lemma touched_not_source (fs0 : gmap Path node) (ps : list Path) (y : Path) :
  ps ⊆ all_files_of here fs0 → y ∈ all_files_of here fs0 →
  ¬ touched here ps y.
Proof.
  intros Hps (ry & -> & _)%elem_of_all_files. apply source_not_touched.
  intros x Hx. apply Hps in Hx as (rx & -> & _)%elem_of_all_files. by eexists.
Qed.

Lemma touched_not_other_output (fs0 : gmap Path node) (ps : list Path) (x : Path) :
  ps ⊆ all_files_of here fs0 → x ∈ all_files_of here fs0 → x ∉ ps →
  ¬ touched here ps (out_path here x)
  ∧ ¬ touched here ps (out_path here x ++ [PurePath.name x]).
Proof.
  intros Hps Hx Hnotin. split; intros (y & Hy & Hq); destruct Hq as [Hq|Hq].
  - eapply out_path_inj in Hq; [|done|by apply Hps]. by subst y.
  - eapply out_path_not_nested in Hq; [done|done|by apply Hps].
  - symmetry in Hq. eapply out_path_not_nested in Hq; [done|by apply Hps|done].
  - apply app_inj_tail in Hq as [Hq _].
    eapply out_path_inj in Hq; [|done|by apply Hps]. by subst y.
Qed.

(** After a loop that ran to its end, every file of the loop has its output. *)
Lemma loop_mirrored (fs0 : gmap Path node) stamp_page (ps : list Path) w w' :
  for_each ps (do_file here (all_files_of here fs0) stamp_page) w = (Ok tt, w') →
  NoDup ps → ps ⊆ all_files_of here fs0 →
  (∀ p, p ∈ ps → files w !! p = fs0 !! p) →
  (∀ p, p ∈ ps →
        is_dir_in (files w) (out_path here p) = is_dir_in fs0 (out_path here p)) →
  ∀ p, p ∈ ps → mirrored here fs0 (files w') stamp_page p.
Proof.
  revert w. induction ps as [|x ps IH]; intros w Hrun Hnd Hsub Hsrc Hout p Hp.
  { by apply elem_of_nil in Hp. }
  simpl in Hrun. apply bind_Ok_inv in Hrun as ([] & w1 & Hx & Hrest).
  apply NoDup_cons in Hnd as [Hx_notin Hnd].
  assert (Hx_all : x ∈ all_files_of here fs0) by (apply Hsub; by left).
  assert (Hps_all : ps ⊆ all_files_of here fs0).
  { intros y Hy. apply Hsub. by right. }
  assert (Hx_sub : [x] ⊆ all_files_of here fs0).
  { by intros ? ->%list_elem_of_singleton. }
  pose proof (changes_within_files (all_files_of here fs0) stamp_page [x]) as Hfx.
  unfold changes_within in Hfx. simpl in Hfx.
  assert (Hev1 : evolves (touched here [x]) (made_dirs here [x]) (files w) (files w1)).
  { eapply (Hfx w (Ok tt) w1). unfold bind. by rewrite Hx. }
  pose proof (changes_within_files (all_files_of here fs0) stamp_page ps _ _ _ Hrest)
    as Hev2.
  assert (Hsrc1 : ∀ y, y ∈ ps → files w1 !! y = fs0 !! y).
  { intros y Hy. rewrite <- (Hsrc y) by by right.
    destruct (all_files_is_file fs0 y (Hps_all y Hy)) as (d & st & Hd).
    rewrite <- (Hsrc y) in Hd by by right. rewrite Hd.
    eapply evolves_file_same; [done| |done].
    eapply touched_not_source; [done|by apply Hps_all]. }
  assert (Hout1 : ∀ y, y ∈ ps →
            is_dir_in (files w1) (out_path here y) = is_dir_in fs0 (out_path here y)).
  { intros y Hy. rewrite <- (Hout y) by by right.
    eapply evolves_is_dir; [done|].
    eapply made_dirs_not_output; [done|by apply Hps_all]. }
  apply elem_of_cons in Hp as [-> | Hp]; [|by eapply IH].
  destruct (touched_not_other_output fs0 ps x Hps_all Hx_all Hx_notin) as [Ht1 Ht2].
  eapply mirrored_evolves; [|done|done|done].
  eapply mirrored_source; [symmetry; apply Hsrc; by left|symmetry; apply Hout; by left|].
  eapply do_file_mirrored; done.
Qed.

(** ** The shape of a run *)

Lemma bind_assoc {A B C} (m : M A) (f : A → M B) (g : B → M C) w :
  bind (bind m f) g w = bind m (λ a, bind (f a) g) w.
Proof. unfold bind. destruct (m w) as [[a|e] w1]; done. Qed.

Lemma bind_ext {A B} (m : M A) (f g : A → M B) w :
  (∀ a w1, f a w1 = g a w1) → bind m f w = bind m g w.
Proof. intros E. unfold bind. destruct (m w) as [[a|e] w1]; [apply E|done]. Qed.

Lemma for_each_ext {A} (l : list A) (f g : A → M unit) w :
  (∀ x w1, x ∈ l → f x w1 = g x w1) → for_each l f w = for_each l g w.
Proof.
  revert w. induction l as [|x l IH]; intros w E; simpl; [done|].
  unfold bind. rewrite (E x w) by by left.
  destruct (g x w) as [[[]|e] w1]; [|done]. apply IH. intros. apply E. by right.
Qed.

Lemma two_loops {A B} (l1 l2 : list A) (f1 f2 g : A → M unit) (k : M B) w :
  (∀ x w1, x ∈ l1 → f1 x w1 = g x w1) →
  (∀ x w1, x ∈ l2 → f2 x w1 = g x w1) →
  (for_each l1 f1 >> for_each l2 f2 >> k) w = (for_each (l1 ++ l2) g >> k) w.
Proof.
  intros E1 E2. revert w E1. induction l1 as [|x l1 IH]; intros w E1; simpl.
  - unfold bind, ret. by rewrite (for_each_ext l2 f2 g).
  - rewrite !bind_assoc. unfold bind at 1 4. rewrite (E1 x w) by by left.
    destruct (g x w) as [[[]|e] w1]; [|done].
    apply IH. intros. apply E1. by right.
Qed.

Lemma main_body_eq (all_files : list Path) (tmp_path : Path) w :
  main_body here tmp_path (pdf_files_of all_files) (other_files_of all_files) w =
  (let* stamp_page := load_stamp tmp_path in
   for_each (files_in_order all_files) (do_file here all_files stamp_page) >>
   print [Lit (summary here (pdf_files_of all_files) (other_files_of all_files))]) w.
Proof.
  unfold main_body, load_stamp. rewrite bind_assoc. apply bind_ext. intros _ w1.
  rewrite bind_assoc. apply bind_ext. intros pages w2.
  apply bind_ext. intros stamp_page w3. unfold files_in_order.
  apply two_loops; intros p w4 Hp; unfold do_file.
  - by rewrite decide_True.
  - rewrite decide_False; [done|]. by apply elem_of_other_files in Hp as [_ ?];
      intros [_ ?]%elem_of_pdf_files.
Qed.

Lemma elem_of_files_in_order (all_files : list Path) (p : Path) :
  p ∈ files_in_order all_files ↔ p ∈ all_files.
Proof. unfold files_in_order. by rewrite files_in_order_perm. Qed.

Lemma NoDup_files_in_order (fs : gmap Path node) :
  NoDup (files_in_order (all_files_of here fs)).
Proof. unfold files_in_order. rewrite files_in_order_perm. apply NoDup_all_files. Qed.

Lemma changes_within_ext {A} T D (m m' : M A) :
  (∀ w, m w = m' w) → changes_within T D m' → changes_within T D m.
Proof. intros E H w r w' Hm. rewrite E in Hm. by eapply H. Qed.

Lemma changes_within_load_stamp (T D : Path → Prop) tmp_path :
  T tmp_path → changes_within T D (load_stamp tmp_path).
Proof.
  intros HT. unfold load_stamp.
  apply changes_within_bind.
  { unfold create_watermark_pdf. destruct A4 as [a4w a4h]. unfold canvas_save. simpl.
    apply changes_within_bind; [by apply changes_within_open_wb|]. intros _.
    by apply changes_within_write_handle. }
  intros _. apply changes_within_bind.
  { apply changes_within_bind; [apply changes_within_read_bytes|]. intros d.
    apply changes_within_pure. intros w. destruct (pdf_parse d); by eexists. }
  intros pages. apply changes_within_pure. intros w. destruct pages; by eexists.
Qed.

Lemma changes_within_main_body (all_files : list Path) (tmp_path : Path) :
  changes_within (λ q, q = tmp_path ∨ touched here all_files q)
    (made_dirs here all_files)
    (main_body here tmp_path (pdf_files_of all_files) (other_files_of all_files)).
Proof.
  eapply changes_within_ext; [intros w; apply main_body_eq|].
  apply changes_within_bind; [apply changes_within_load_stamp; by left|].
  intros stamp_page. apply changes_within_bind; [|intros _; apply changes_within_print].
  eapply changes_within_mono; [| |apply changes_within_files].
  - intros q Hq. right. revert Hq. apply touched_mono.
    intros p Hp. by apply elem_of_files_in_order.
  - intros q. apply made_dirs_mono. intros p Hp. by apply elem_of_files_in_order.
Qed.

Lemma tempfile_inv w r w' :
  tempfile_NamedTemporaryFile w = (r, w') →
  (∃ e, r = Raise e ∧ files w' = files w)
  ∨ (∃ st, r = Ok (tempname w) ∧ tempname w = tempname w'
           ∧ files w !! tempname w = None
           ∧ files w' = <[tempname w := NFile [] st]> (files w)).
Proof.
  intros H. apply bind_inv in H as [([] & w1 & H1 & H) | (e & H1 & ->)].
  - pose proof (syscall_files _ _ _ H1) as E.
    assert (tempname w1 = tempname w) as Et.
    { unfold syscall in H1. destruct (faults w) as [|[|] ?]; by inversion H1. }
    rewrite <- E, <- Et. cbv beta zeta in H.
    destruct (negb (bool_decide (PurePath.suffix (tempname w1) = ".pdf"))).
    { left. inversion H; subst. by eexists. }
    destruct (tempname w1) as [|c t] eqn:Ht; cbv beta zeta iota in H.
    { left. inversion H; subst. by eexists. }
    destruct (files w1 !! (c :: t)) eqn:El.
    { left. inversion H; subst. by eexists. }
    destruct (is_dir_in _ _); inversion H; subst.
    + right. eexists. simpl. rewrite Ht. done.
    + left. by eexists.
  - left. exists e. split; [done|]. by eapply syscall_files.
Qed.


Lemma filter_by_is_file (l : list Path) w :
  filter_by Path_is_file l w = (Ok (filter (λ p, is_file_in (files w) p) l), w).
Proof.
  induction l as [|x l IH]; [done|].
  simpl. unfold bind at 1, Path_is_file at 1. unfold bind at 1. rewrite IH.
  unfold ret. rewrite filter_cons.
  by destruct (is_file_in (files w) x).
Qed.

(** The branches of [main] *)
Lemma main_eq w :
  main here w =
  if is_dir_in (files w) SRC then
    match all_files_of here (files w) with
    | [] => print [Lit "No files found in"; Lit (PurePath.str SRC)] w
    | _ =>
        (let* tmp_path := tempfile_NamedTemporaryFile in
         try_finally
           (main_body here tmp_path (pdf_files_of (all_files_of here (files w)))
                                    (other_files_of (all_files_of here (files w))))
           (Path_unlink_missing_ok tmp_path)) w
    end
  else (Raise (SystemExit ("Source folder not found: " +:+ PurePath.str SRC)), w).
Proof.
  unfold main, bind at 1, Path_is_dir.
  destruct (is_dir_in (files w) SRC); [|done]. simpl.
  unfold bind at 1, Path_rglob. unfold bind at 1. rewrite filter_by_is_file.
  fold (all_files_of here (files w)).
  by destruct (all_files_of here (files w)).
Qed.

Lemma main_unfold w :
  is_dir_in (files w) SRC = true → all_files_of here (files w) ≠ [] →
  main here w =
  (let* tmp_path := tempfile_NamedTemporaryFile in
   try_finally
     (main_body here tmp_path (pdf_files_of (all_files_of here (files w)))
                              (other_files_of (all_files_of here (files w))))
     (Path_unlink_missing_ok tmp_path)) w.
Proof.
  intros Hdir Hne. rewrite main_eq, Hdir.
  by destruct (all_files_of here (files w)).
Qed.

(** Once the temporary file is there, the run ends with the outcome of the
    [try] block and in the world the block left, less the temporary file. *)
Lemma main_run w tmp_path w1 r wb :
  is_dir_in (files w) SRC = true → all_files_of here (files w) ≠ [] →
  tempfile_NamedTemporaryFile w = (Ok tmp_path, w1) →
  main_body here tmp_path (pdf_files_of (all_files_of here (files w)))
            (other_files_of (all_files_of here (files w))) w1 = (r, wb) →
  main here w = (r, set_files (delete tmp_path (files wb)) wb)
  ∧ (∃ d st, files wb !! tmp_path = Some (NFile d st))
  ∧ files w !! tmp_path = None.
Proof.
  intros Hdir Hne Htmp Hbody.
  pose proof (changes_within_main_body _ _ _ _ _ Hbody) as Hev.
  apply tempfile_inv in Htmp as Hinv.
  destruct Hinv as [(e & [=] & _) | (st & Et & _ & Hfree & E1)].
  injection Et as ->.
  assert (∃ d st', files wb !! tempname w = Some (NFile d st')) as (d & st' & Hd).
  { specialize (Hev (tempname w)). rewrite E1, lookup_insert_eq in Hev.
    destruct Hev as (d & st' & Hd & _). eauto. }
  split; [|eauto].
  rewrite main_unfold by done. rewrite (bind_Ok _ _ _ _ _ Htmp).
  unfold try_finally. rewrite Hbody. unfold Path_unlink_missing_ok. by rewrite Hd.
Qed.

Lemma main_cases w :
  let all_files := all_files_of here (files w) in
  (is_dir_in (files w) SRC = false ∧ ∃ e, main here w = (Raise e, w))
  ∨ (is_dir_in (files w) SRC = true ∧ all_files = []
     ∧ ∃ out, main here w = (Ok tt, set_stdout out w))
  ∨ (is_dir_in (files w) SRC = true ∧ all_files ≠ []
     ∧ ∃ e w1, tempfile_NamedTemporaryFile w = (Raise e, w1)
               ∧ files w1 = files w ∧ main here w = (Raise e, w1))
  ∨ (is_dir_in (files w) SRC = true ∧ all_files ≠ []
     ∧ ∃ w1 r wb st,
         tempfile_NamedTemporaryFile w = (Ok (tempname w), w1)
         ∧ files w !! tempname w = None
         ∧ files w1 = <[tempname w := NFile [] st]> (files w)
         ∧ main_body here (tempname w) (pdf_files_of all_files)
             (other_files_of all_files) w1 = (r, wb)
         ∧ (∃ d st', files wb !! tempname w = Some (NFile d st'))
         ∧ main here w = (r, set_files (delete (tempname w) (files wb)) wb)).
Proof.
  intros all_files. destruct (is_dir_in (files w) SRC) eqn:Hdir.
  2:{ left. split; [done|]. eexists. by rewrite main_eq, Hdir. }
  right. destruct (decide (all_files = [])) as [Hall|Hall].
  { left. split; [done|]. split; [done|]. eexists.
    rewrite main_eq, Hdir. fold all_files. rewrite Hall. reflexivity. }
  right. destruct (tempfile_NamedTemporaryFile w) as [rt w1] eqn:Htmp.
  pose proof (tempfile_inv _ _ _ Htmp) as [(e & -> & E) | (st & -> & _ & Hfree & E)].
  { left. split; [done|]. split; [done|]. exists e, w1. split; [done|]. split; [done|].
    rewrite main_unfold by done. by apply bind_Raise. }
  right. split; [done|]. split; [done|].
  destruct (main_body here (tempname w) (pdf_files_of all_files)
              (other_files_of all_files) w1) as [r wb] eqn:Hbody.
  destruct (main_run w _ _ _ _ Hdir Hall Htmp Hbody) as (Hmain & Hfile & _).
  exists w1, r, wb, st. done.
Qed.

Lemma evolves_restrict (T D : Path → Prop) (t : Path) (n : node) fs0 fs1 fs2 :
  fs0 !! t = None → fs1 = <[t := n]> fs0 →
  evolves (λ q, q = t ∨ T q) D fs1 fs2 → evolves T D fs0 (delete t fs2).
Proof.
  intros Hfree -> Hev q. destruct (decide (q = t)) as [->|Hne].
  { by rewrite Hfree, lookup_delete_eq. }
  specialize (Hev q). rewrite lookup_insert_ne in Hev by done.
  rewrite lookup_delete_ne by done.
  destruct (fs0 !! q) as [[d st|]|].
  - destruct Hev as (d' & st' & E & [[?|?]|?]); [done|eauto|eauto].
  - done.
  - destruct (fs2 !! q) as [[d st|]|]; [|done|done]. by destruct Hev.
Qed.

(** Whatever its outcome, a run removes nothing, changes the kind of
    nothing, writes regular files only where the enumerated files are sent
    and makes directories only above those places. *)
Lemma main_frame w r w' :
  main here w = (r, w') →
  evolves (touched here (all_files_of here (files w)))
          (made_dirs here (all_files_of here (files w))) (files w) (files w').
Proof.
  intros Hrun.
  destruct (main_cases w) as [(_ & e & E) | [(_ & _ & out & E) | [(_ & _ & e & w1 & _ & Ef & E)
    | (_ & _ & w1 & r1 & wb & st & Htmp & Hfree & E1 & Hbody & _ & E)]]];
    rewrite E in Hrun; injection Hrun as <- <-.
  - apply evolves_refl.
  - apply evolves_refl.
  - rewrite Ef. apply evolves_refl.
  - simpl. eapply evolves_restrict; [done|done|].
    by eapply changes_within_main_body.
Qed.

Lemma is_dir_in_insert_file (fs : gmap Path node) (t q : Path) d st :
  fs !! t = None → is_dir_in (<[t := NFile d st]> fs) q = is_dir_in fs q.
Proof.
  intros Hfree. unfold is_dir_in. destruct q as [|c q]; [done|].
  destruct (decide (t = c :: q)) as [<-|Hne].
  - by rewrite lookup_insert_eq, Hfree.
  - by rewrite lookup_insert_ne.
Qed.

Lemma output_prefix_out_path (fs : gmap Path node) (p : Path) :
  p ∈ all_files_of here fs →
  OUT `prefix_of` out_path here p
  ∧ OUT `prefix_of` (out_path here p ++ [PurePath.name p]).
Proof.
  intros (rel & -> & _)%elem_of_all_files. rewrite out_path_source. split.
  - by exists rel.
  - exists (rel ++ [PurePath.name (SRC ++ rel)]). by rewrite app_assoc.
Qed.

(** Making the stamp leaves the enumerated files and the kind of their
    output paths as they were. *)
Lemma after_load_stamp w w1 st stamp_page w0 :
  files w !! tempname w = None →
  files w1 = <[tempname w := NFile [] st]> (files w) →
  load_stamp (tempname w) w1 = (Ok stamp_page, w0) →
  (∀ y, y ∈ all_files_of here (files w) → files w0 !! y = files w !! y)
  ∧ (∀ q, is_dir_in (files w0) q = is_dir_in (files w) q).
Proof.
  intros Hfree E1 Hstamp.
  pose proof (changes_within_load_stamp (λ q, q = tempname w) (λ _, False)
                (tempname w) eq_refl _ _ _ Hstamp) as Hev.
  split.
  - intros y Hy. destruct (all_files_is_file _ _ Hy) as (d & st' & Hd). rewrite Hd.
    assert (y ≠ tempname w) by (intros ->; by rewrite Hfree in Hd).
    eapply evolves_file_same; [done|done|].
    by rewrite E1, lookup_insert_ne.
  - intros q. erewrite evolves_is_dir; [|done|by intros []].
    rewrite E1. by apply is_dir_in_insert_file.
Qed.

(** When the loops of the [try] block ran to their end, every enumerated
    file has its output. *)
Lemma body_mirrored w w1 wb st :
  files w !! tempname w = None →
  files w1 = <[tempname w := NFile [] st]> (files w) →
  main_body here (tempname w) (pdf_files_of (all_files_of here (files w)))
            (other_files_of (all_files_of here (files w))) w1 = (Ok tt, wb) →
  ∃ stamp_page, ∀ p, p ∈ all_files_of here (files w) →
                     mirrored here (files w) (files wb) stamp_page p.
Proof.
  intros Hfree E1 Hbody. rewrite main_body_eq in Hbody.
  apply bind_Ok_inv in Hbody as (stamp_page & w0 & Hstamp & Hbody).
  apply bind_Ok_inv in Hbody as ([] & wk & Hloop & Hprint).
  apply print_inv in Hprint as [_ Eb]. exists stamp_page. intros p Hp. rewrite Eb.
  destruct (after_load_stamp _ _ _ _ _ Hfree E1 Hstamp) as [Hsrc Hkind].
  eapply loop_mirrored; [done|apply NoDup_files_in_order| | | |].
  - intros y Hy. by apply elem_of_files_in_order.
  - intros y Hy. apply Hsrc. by apply elem_of_files_in_order.
  - intros y Hy. apply Hkind.
  - by apply elem_of_files_in_order.
Qed.

Lemma mirrored_delete fs0 fs' stamp_page (t p : Path) d st :
  mirrored here fs0 fs' stamp_page p → fs' !! t = Some (NFile d st) →
  t ≠ out_path here p → t ≠ out_path here p ++ [PurePath.name p] →
  mirrored here fs0 (delete t fs') stamp_page p.
Proof.
  intros [Hd (d0 & st0 & Hsrc & Hm)] Ht H1 H2. split.
  - intros q Hq. rewrite lookup_delete_ne; [by apply Hd|].
    intros <-. rewrite (Hd _ Hq) in Ht. done.
  - exists d0, st0. split; [done|]. case_decide.
    + destruct Hm as (pages & writer & st' & ? & ? & ?).
      exists pages, writer, st'. by rewrite lookup_delete_ne.
    + rewrite lookup_delete_ne; [done|].
      unfold copy2_target, PurePath.joinpath. by destruct (is_dir_in _ _).
Qed.

(** After a run that returned normally, every enumerated file has its
    output, provided the temporary file was not drawn inside the output folder. *)
Lemma run_mirrored w w' :
  main here w = (Ok tt, w') →
  ¬ OUT `prefix_of` tempname w →
  ∃ stamp_page, ∀ p, p ∈ all_files_of here (files w) →
                     mirrored here (files w) (files w') stamp_page p.
Proof.
  intros Hrun Htmp.
  destruct (main_cases w) as [(_ & e & E) | [(_ & Hall & out & E) | [(_ & _ & e & w1 & _ & Ef & E)
    | (_ & _ & w1 & r1 & wb & st & _ & Hfree & E1 & Hbody & (d & st' & Hfile) & E)]]];
    rewrite E in Hrun; try done.
  - exists {| mediabox := {| width := 0; height := 0 |}; contents := [] |}.
    intros p Hp. rewrite Hall in Hp. by apply elem_of_nil in Hp.
  - injection Hrun as -> <-.
    destruct (body_mirrored _ _ _ _ Hfree E1 Hbody) as [stamp_page Hm].
    exists stamp_page. intros p Hp. simpl.
    destruct (output_prefix_out_path _ _ Hp) as [Hp1 Hp2].
    eapply mirrored_delete; [by apply Hm|done| |];
      intros Heq; apply Htmp; by rewrite Heq.
Qed.






(** ** The claims about a run *)

Lemma is_dir_in_false_iff (fs : gmap Path node) (p : Path) :
  p ≠ [] →
  (fs !! p = None ∨ ∃ d st, fs !! p = Some (NFile d st)) ↔ is_dir_in fs p = false.
Proof.
  intros Hp. unfold is_dir_in. destruct p; [done|].
  destruct (fs !! _) as [[d st|]|]; split; try done; eauto.
  - by intros [[=] | (? & ? & [=])].
Qed.

Lemma source_nonempty : SRC ≠ [].
Proof. unfold SOURCE_FOLDER, PurePath.joinpath. by intros [_ [=]]%app_eq_nil. Qed.

(** C7. When the source folder does not exist or is not a directory, [main]
    raises [SystemExit] with the message naming the folder, the exit status
    is 1, and the world is left exactly as it was: nothing was enumerated,
    printed, created or written. *)
Theorem main_source_missing w :
  files w !! SRC = None ∨ (∃ d st, files w !! SRC = Some (NFile d st)) →
  main here w
  = (Raise (SystemExit ("Source folder not found: " +:+ PurePath.str SRC)), w)
  ∧ exit_status (main here w).1 = 1%Z.
Proof.
  intros Hsrc. apply is_dir_in_false_iff in Hsrc; [|apply source_nonempty].
  assert (main here w
          = (Raise (SystemExit ("Source folder not found: " +:+ PurePath.str SRC)), w))
    as ->; [|done].
  by rewrite main_eq, Hsrc.
Qed.


Lemma elem_of_regular_files_under (fs : gmap Path node) (root rel : Path) :
  rel ∈ regular_files_under fs root ↔
  reachable fs root rel = true ∧ is_file_in fs (root ++ rel) = true.
Proof.
  unfold regular_files_under. rewrite list_elem_of_omap. split.
  - intros (q & Hq & Hs). apply list_elem_of_filter in Hq as [Hf Hq].
    apply elem_of_rglob in Hq as [_ Hb]. unfold below in Hb. rewrite Hs in Hb.
    apply strip_prefix_Some in Hs as ->. by apply Is_true_true in Hf.
  - intros [Hr Hf]. exists (root ++ rel). split; [|apply strip_prefix_app].
    apply list_elem_of_filter. split; [by apply Is_true_true|].
    apply elem_of_rglob. split.
    + unfold is_file_in in Hf. destruct (fs !! (root ++ rel)); [by eexists|done].
    + unfold below. by rewrite strip_prefix_app.
Qed.

Lemma NoDup_omap_inj {A B} (f : A → option B) (l : list A) :
  (∀ x y z, x ∈ l → y ∈ l → f x = Some z → f y = Some z → x = y) →
  NoDup l → NoDup (omap f l).
Proof.
  induction l as [|a l IH]; intros Hinj Hnd; simpl; [constructor|].
  apply NoDup_cons in Hnd as [Ha Hnd].
  assert (Hl : NoDup (omap f l)).
  { apply IH; [|done]. intros x y z Hx Hy. apply Hinj; by right. }
  destruct (f a) as [b|] eqn:Eb; [|done].
  apply NoDup_cons. split; [|done].
  intros (x & Hx & Ex)%list_elem_of_omap. apply Ha.
  by rewrite (Hinj a x b) by (done || by left || by right).
Qed.

Lemma NoDup_regular_files_under (fs : gmap Path node) (root : Path) :
  NoDup (regular_files_under fs root).
Proof.
  apply NoDup_omap_inj; [|apply NoDup_filter, NoDup_rglob].
  intros x y z _ _ Hx Hy.
  apply strip_prefix_Some in Hx, Hy. by rewrite Hx, Hy.
Qed.

Lemma regular_files_under_source (fs : gmap Path node) (rel : Path) :
  rel ∈ regular_files_under fs SRC ↔ SRC ++ rel ∈ all_files_of here fs.
Proof.
  rewrite elem_of_regular_files_under, elem_of_all_files. split.
  - intros [? ?]. by exists rel.
  - intros (rel' & ->%app_inv_head & ? & ?). done.
Qed.

Lemma mirrored_reachable fs0 fs' stamp_page (rel : Path) :
  rel ≠ [] → mirrored here fs0 fs' stamp_page (SRC ++ rel) →
  reachable fs' OUT rel = true.
Proof.
  intros Hrel [Hd _]. apply reachable_spec. split; [done|].
  intros a b -> Ha Hb. apply Hd. rewrite out_path_source.
  apply elem_of_prefixes_parent. split.
  - by destruct OUT, a.
  - exists b. split; [done|]. by rewrite app_assoc.
Qed.

(** C1, as amended.  After a run that returned normally, with the
    temporary file drawn outside the output folder: every regular file of
    the source tree is a regular file at the same relative path below the
    output folder, unless a directory stood at that path before the run
    (then [shutil.copy2] has copied into that directory); if nothing was
    below the output folder before the run, the regular files of the output
    tree have exactly the relative paths of those of the source tree, and
    there are as many; and two enumerated files with the same output path
    are the same file. *)
Theorem output_mirrors_source w w' :
  main here w = (Ok tt, w') →
  ¬ OUT `prefix_of` tempname w →
  (∀ rel, rel ∈ regular_files_under (files w) SRC →
          files w !! (OUT ++ rel) ≠ Some NDir →
          reachable (files w') OUT rel = true
          ∧ is_file_in (files w') (OUT ++ rel) = true)
  ∧ ((∀ q, OUT `prefix_of` q → q ≠ OUT → files w !! q = None) →
     list_to_set (regular_files_under (files w') OUT)
     =@{gset Path} list_to_set (regular_files_under (files w) SRC)
     ∧ length (regular_files_under (files w') OUT)
       = length (regular_files_under (files w) SRC))
  ∧ (∀ p1 p2, p1 ∈ all_files_of here (files w) → p2 ∈ all_files_of here (files w) →
              out_path here p1 = out_path here p2 → p1 = p2).
Proof.
  intros Hrun Htmp.
  destruct (run_mirrored w w' Hrun Htmp) as [stamp_page Hm].
  pose proof (main_frame w _ _ Hrun) as Hev.
  assert (Hfwd : ∀ rel, rel ∈ regular_files_under (files w) SRC →
            files w !! (OUT ++ rel) ≠ Some NDir →
            reachable (files w') OUT rel = true
            ∧ is_file_in (files w') (OUT ++ rel) = true).
  { intros rel Hrel Hnd. apply regular_files_under_source in Hrel as Hp.
    apply elem_of_regular_files_under in Hrel as [Hr _].
    assert (rel ≠ []) as Hne by (by intros ->).
    specialize (Hm _ Hp). split; [by eapply mirrored_reachable|].
    destruct Hm as [_ (d & st & _ & Hout)]. unfold is_file_in.
    rewrite out_path_source in Hout. case_decide.
    - destruct Hout as (? & ? & ? & _ & _ & ->). done.
    - unfold copy2_target in Hout.
      rewrite is_dir_in_false in Hout; [by rewrite Hout|apply output_nonempty|done]. }
  split; [done|]. split; [|intros p1 p2; apply out_path_inj].
  intros Hfresh.
  assert (Hfresh' : ∀ rel, rel ≠ [] → files w !! (OUT ++ rel) = None).
  { intros rel Hrel. apply Hfresh; [by exists rel|].
    intros E. rewrite <- (app_nil_r OUT) in E at 2. by apply app_inv_head in E. }
  assert (Hsame : ∀ rel, rel ∈ regular_files_under (files w') OUT
                         ↔ rel ∈ regular_files_under (files w) SRC);
    [|split; [apply set_eq; intros rel; by rewrite !elem_of_list_to_set
             |by apply Permutation_length, NoDup_Permutation;
                [apply NoDup_regular_files_under..|]]].
  intros rel. split.
  - rewrite elem_of_regular_files_under. intros [Hr Hf].
    apply regular_files_under_source.
    apply reachable_spec in Hr as [Hne Hr].
    specialize (Hev (OUT ++ rel)). rewrite Hfresh' in Hev by done.
    unfold is_file_in in Hf. destruct (files w' !! (OUT ++ rel)) as [[d st|]|]; try done.
    destruct Hev as (p & Hp & Hq).
    pose proof Hp as (r & -> & Hrp & _)%elem_of_all_files.
    rewrite out_path_source in Hq. destruct Hq as [Hq|Hq].
    + by apply app_inv_head in Hq as ->.
    + exfalso. rewrite <- app_assoc in Hq. apply app_inv_head in Hq.
      assert (r ≠ []) as Hrne by (by intros ->).
      specialize (Hr r [PurePath.name (SRC ++ r)] Hq Hrne ltac:(done)).
      pose proof (main_frame w _ _ Hrun (OUT ++ r)) as Hev.
      rewrite Hfresh', Hr in Hev by done.
      eapply made_dirs_not_output; [done|apply Hp|]. by rewrite out_path_source.
  - intros Hrel. apply elem_of_regular_files_under.
    assert (rel ≠ []) as Hne.
    { apply elem_of_regular_files_under in Hrel as [Hr _]. by intros ->. }
    apply Hfwd; [done|]. by rewrite Hfresh'.
Qed.


(** C4. Suppose the run got as far as the stamp, the files [pre] were
    processed without error, and processing the next file [f] raises [e]
    (its document does not parse, or a read or a write fails).  Then [main]
    raises that same [e] and exits with status 1; the run stops there: its
    final world is the world the failing step left, less the temporary file.
    Every file and directory present when [f] was taken up, other than the
    temporary file and the destination of [f], is unchanged; in particular
    the complete outputs of the files of [pre] are still in place. *)
Theorem failure_aborts_run w tmp_path w1 stamp_page w0 pre f post wk e wf :
  is_dir_in (files w) SRC = true →
  files_in_order (all_files_of here (files w)) = pre ++ f :: post →
  tempfile_NamedTemporaryFile w = (Ok tmp_path, w1) →
  load_stamp tmp_path w1 = (Ok stamp_page, w0) →
  for_each pre (do_file here (all_files_of here (files w)) stamp_page) w0 = (Ok tt, wk) →
  do_file here (all_files_of here (files w)) stamp_page f wk = (Raise e, wf) →
  let w' := set_files (delete tmp_path (files wf)) wf in
  main here w = (Raise e, w')
  ∧ exit_status (main here w).1 = 1%Z
  ∧ (∀ q n, files wk !! q = Some n → q ≠ tmp_path →
            q ≠ out_path here f → q ≠ out_path here f ++ [PurePath.name f] →
            files w' !! q = Some n)
  ∧ (¬ OUT `prefix_of` tmp_path →
     ∀ p, p ∈ pre → mirrored here (files w) (files wk) stamp_page p
                    ∧ mirrored here (files w) (files w') stamp_page p).
Proof.
  intros Hdir Hsplit Htmp Hstamp Hpre Hfail w'.
  set (all_files := all_files_of here (files w)) in *.
  assert (Hne : all_files ≠ []).
  { intros E. rewrite E in Hsplit. by destruct pre. }
  pose proof (tempfile_inv _ _ _ Htmp) as [(? & [=] & _) | (st & Et & _ & Hfree & E1)].
  injection Et as ->.
  assert (Hbody : main_body here (tempname w) (pdf_files_of all_files)
                    (other_files_of all_files) w1 = (Raise e, wf)).
  { rewrite main_body_eq. rewrite (bind_Ok _ _ _ _ _ Hstamp).
    fold all_files. rewrite Hsplit. unfold bind at 1. rewrite for_each_app.
    unfold bind at 1. rewrite Hpre. simpl. unfold bind at 1. by rewrite Hfail. }
  destruct (main_run w _ _ _ _ Hdir Hne Htmp Hbody) as (Hmain & (dt & stt & Htfile) & _).
  assert (Hev : evolves (touched here [f]) (made_dirs here [f]) (files wk) (files wf)).
  { revert Hfail. apply changes_within_do_file.
    - exists f. split; [by left|by left].
    - exists f. split; [by left|by right].
    - intros q Hq. exists f. split; [by left|done]. }
  split; [done|]. split; [by rewrite Hmain|]. split.
  - intros q n Hq Hq1 Hq2 Hq3. unfold w'. simpl. rewrite lookup_delete_ne by done.
    destruct n as [d st'|].
    + eapply evolves_file_same; [done| |done].
      intros (? & ->%list_elem_of_singleton & [?|?]); done.
    + by eapply evolves_dir.
  - intros Hout p Hp.
    assert (Hnd : NoDup (pre ++ f :: post)).
    { rewrite <- Hsplit. apply NoDup_files_in_order. }
    assert (Hsub : ∀ y, y ∈ pre ++ f :: post → y ∈ all_files).
    { intros y Hy. rewrite <- Hsplit in Hy.
      by apply (proj1 (elem_of_files_in_order _ _)) in Hy. }
    destruct (after_load_stamp _ _ _ _ _ Hfree E1 Hstamp) as [Hsrc Hkind].
    assert (Hmk : mirrored here (files w) (files wk) stamp_page p).
    { eapply loop_mirrored; [done| | | | |done].
      - by apply NoDup_app in Hnd as [? _].
      - intros y Hy. apply Hsub, elem_of_app. by left.
      - intros y Hy. apply Hsrc, Hsub, elem_of_app. by left.
      - intros y Hy. apply Hkind. }
    split; [done|].
    assert (Hpf : p ∈ all_files) by (apply Hsub, elem_of_app; by left).
    assert (Hf : f ∈ all_files) by (apply Hsub, elem_of_app; right; by left).
    assert (Hneq : p ∉ [f]).
    { intros ->%list_elem_of_singleton.
      apply NoDup_app in Hnd as (_ & Hnd & _). apply (Hnd f Hp). by left. }
    assert (Hf_sub : [f] ⊆ all_files) by (by intros ? ->%list_elem_of_singleton).
    destruct (touched_not_other_output (files w) [f] p Hf_sub Hpf Hneq) as [Ht1 Ht2].
    destruct (output_prefix_out_path _ _ Hpf) as [Hp1 Hp2].
    unfold w'. simpl. eapply mirrored_delete; [|done| |].
    + by eapply mirrored_evolves.
    + intros Heq. apply Hout. by rewrite Heq.
    + intros Heq. apply Hout. by rewrite Heq.
Qed.

(** C6. Once the temporary stamp file has been created, whatever the [try]
    block does, the run ends with the outcome of the block and the file is
    gone from the final world; and a [finally] clause that finds the file
    already missing leaves the outcome and the world of the block as they are. *)
Theorem stamp_file_is_removed w tmp_path w1 :
  is_dir_in (files w) SRC = true →
  all_files_of here (files w) ≠ [] →
  tempfile_NamedTemporaryFile w = (Ok tmp_path, w1) →
  (∃ st, files w1 !! tmp_path = Some (NFile [] st))
  ∧ files (main here w).2 !! tmp_path = None
  ∧ (∀ r wb,
       main_body here tmp_path (pdf_files_of (all_files_of here (files w)))
         (other_files_of (all_files_of here (files w))) w1 = (r, wb) →
       main here w = (r, set_files (delete tmp_path (files wb)) wb))
  ∧ (∀ (body : M unit) w2 r wb,
       body w2 = (r, wb) → files wb !! tmp_path = None →
       try_finally body (Path_unlink_missing_ok tmp_path) w2 = (r, wb)).
Proof.
  intros Hdir Hne Htmp. split; [|split; [|split]].
  - pose proof (tempfile_inv _ _ _ Htmp) as [(? & [=] & _) | (st & Et & _ & _ & E1)].
    injection Et as ->. exists st. rewrite E1. apply lookup_insert_eq.
  - destruct (main_body here tmp_path (pdf_files_of (all_files_of here (files w)))
                (other_files_of (all_files_of here (files w))) w1) as [r wb] eqn:Hbody.
    destruct (main_run w _ _ _ _ Hdir Hne Htmp Hbody) as (-> & _). simpl.
    apply lookup_delete_eq.
  - intros r wb Hbody. by destruct (main_run w _ _ _ _ Hdir Hne Htmp Hbody) as (-> & _).
  - intros body w2 r wb Hbody Hmiss. unfold try_finally. rewrite Hbody.
    unfold Path_unlink_missing_ok. by rewrite Hmiss.
Qed.

(** * Further properties of the script *)

(** ** What is printed *)

Lemma keeps_stdout_pure {A} (m : M A) :
  (∀ w, ∃ r, m w = (r, w)) → keeps_stdout m.
Proof.
  intros H w r w' Hm. destruct (H w) as [r0 E]. rewrite E in Hm. by inversion Hm.
Qed.

Lemma keeps_stdout_bind {A B} (m : M A) (k : A → M B) :
  keeps_stdout m → (∀ a, keeps_stdout (k a)) → keeps_stdout (bind m k).
Proof.
  intros Hm Hk w r w' H.
  apply bind_inv in H as [(a & w1 & H1 & H2) | (e & H1 & _)].
  - rewrite (Hk _ _ _ _ H2). by eapply Hm.
  - by eapply Hm.
Qed.

Lemma keeps_stdout_for_each {A} (l : list A) (body : A → M unit) :
  (∀ x, keeps_stdout (body x)) → keeps_stdout (for_each l body).
Proof.
  intros Hb. induction l as [|x l IH]; simpl.
  - apply keeps_stdout_pure. intros w. by eexists.
  - apply keeps_stdout_bind; [apply Hb|]. by intros _.
Qed.

Lemma keeps_stdout_for_fold {A S} (l : list A) (s : S) (body : S → A → M S) :
  (∀ s x, keeps_stdout (body s x)) → keeps_stdout (for_fold l s body).
Proof.
  intros Hb. revert s. induction l as [|x l IH]; intros s; simpl.
  - apply keeps_stdout_pure. intros w. by eexists.
  - apply keeps_stdout_bind; [apply Hb|]. intros s'. apply IH.
Qed.

Lemma keeps_stdout_syscall : keeps_stdout syscall.
Proof.
  intros w r w'. unfold syscall.
  destruct (faults w) as [|[k|] rest]; by intros [= <- <-].
Qed.

(** A step that, after the system call, at most replaces the map of files *)
Lemma keeps_stdout_after_syscall {A} (step : M A) :
  (∀ w, ∃ r f, step w = (r, set_files f w)) → keeps_stdout (syscall >> step).
Proof.
  intros H. apply keeps_stdout_bind; [apply keeps_stdout_syscall|]. intros _.
  intros w r w' Hs. destruct (H w) as (r0 & f & E). rewrite E in Hs. by inversion Hs.
Qed.

Lemma keeps_stdout_read_bytes p : keeps_stdout (read_bytes p).
Proof.
  apply keeps_stdout_after_syscall. intros w.
  destruct (files w !! p) as [[d st|]|] eqn:E; files_step w.
Qed.

Lemma keeps_stdout_open_wb p : keeps_stdout (open_wb p).
Proof.
  apply keeps_stdout_after_syscall. intros w.
  destruct p as [|c p0]; [files_step w|].
  destruct (negb _) eqn:Ep; [files_step w|].
  destruct (files w !! (c :: p0)) as [[d st|]|] eqn:E; files_step w.
Qed.

Lemma keeps_stdout_write_handle p data : keeps_stdout (write_handle p data).
Proof.
  apply keeps_stdout_after_syscall. intros w.
  destruct (files w !! p) as [[d st|]|] eqn:E; files_step w.
Qed.

Lemma keeps_stdout_ensure_dir p q : keeps_stdout (ensure_dir p q).
Proof.
  intros w r w'. unfold ensure_dir.
  destruct (files w !! q) as [[d st|]|]; try by intros [= <- <-].
  apply keeps_stdout_after_syscall. intros w1. files_step w1.
Qed.

Lemma keeps_stdout_mkdir p : keeps_stdout (Path_mkdir_parents_exist_ok p).
Proof. apply keeps_stdout_for_each. intros q. apply keeps_stdout_ensure_dir. Qed.

Lemma keeps_stdout_copystat src dst : keeps_stdout (shutil_copystat src dst).
Proof.
  apply keeps_stdout_after_syscall. intros w.
  destruct (files w !! src) as [[d st|]|] eqn:E1;
    destruct (files w !! dst) as [[d' st'|]|] eqn:E2; files_step w.
Qed.

Lemma keeps_stdout_copy2 src dst : keeps_stdout (shutil_copy2 src dst).
Proof.
  unfold shutil_copy2. apply keeps_stdout_bind.
  { apply keeps_stdout_pure. intros w. by eexists. }
  intros b. apply keeps_stdout_bind.
  { unfold shutil_copyfile. case_decide.
    - apply keeps_stdout_pure. intros w. by eexists.
    - apply keeps_stdout_bind; [apply keeps_stdout_read_bytes|]. intros d.
      apply keeps_stdout_bind; [apply keeps_stdout_open_wb|]. intros _.
      apply keeps_stdout_write_handle. }
  intros _. apply keeps_stdout_bind; [apply keeps_stdout_copystat|].
  intros _. apply keeps_stdout_pure. intros w. by eexists.
Qed.

Lemma keeps_stdout_tempfile : keeps_stdout tempfile_NamedTemporaryFile.
Proof.
  apply keeps_stdout_after_syscall. intros w. cbv zeta.
  destruct (negb _); [files_step w|].
  destruct (tempname w) as [|c t] eqn:Et; [files_step w|].
  destruct (files w !! (c :: t)) eqn:E; [files_step w|].
  destruct (is_dir_in _ _) eqn:Ed; files_step w.
Qed.

Lemma keeps_stdout_unlink p : keeps_stdout (Path_unlink_missing_ok p).
Proof.
  intros w r w'. unfold Path_unlink_missing_ok.
  destruct (files w !! p) as [[d st|]|]; by intros [= <- <-].
Qed.

Lemma keeps_stdout_PdfReader_pages p : keeps_stdout (PdfReader_pages p).
Proof.
  apply keeps_stdout_bind; [apply keeps_stdout_read_bytes|]. intros d.
  apply keeps_stdout_pure. intros w. destruct (pdf_parse d); by eexists.
Qed.

Lemma keeps_stdout_watermark_pdf input output stamp_page :
  keeps_stdout (watermark_pdf input output stamp_page).
Proof.
  unfold watermark_pdf.
  apply keeps_stdout_bind; [apply keeps_stdout_PdfReader_pages|]. intros pages.
  apply keeps_stdout_bind.
  { apply keeps_stdout_pure. intros w.
    destruct (stamp_loop stamp_page pages [] w) as (out & -> & _). by eexists. }
  intros writer.
  apply keeps_stdout_bind; [apply keeps_stdout_mkdir|]. intros _.
  apply keeps_stdout_bind; [apply keeps_stdout_open_wb|]. intros _.
  apply keeps_stdout_write_handle.
Qed.

Lemma keeps_stdout_load_stamp tmp_path : keeps_stdout (load_stamp tmp_path).
Proof.
  unfold load_stamp. apply keeps_stdout_bind.
  { unfold create_watermark_pdf. destruct A4 as [a4w a4h]. unfold canvas_save. simpl.
    apply keeps_stdout_bind; [apply keeps_stdout_open_wb|]. intros _.
    apply keeps_stdout_write_handle. }
  intros _. apply keeps_stdout_bind; [apply keeps_stdout_PdfReader_pages|].
  intros pages. apply keeps_stdout_pure. intros w. destruct pages; by eexists.
Qed.

Lemma log_line_pdf all_files rel :
  SRC ++ rel ∈ pdf_files_of all_files →
  log_line here all_files (SRC ++ rel)
  = String.concat " " ["Watermarking:"; PurePath.str_rel rel].
Proof. intros H. unfold log_line. rewrite decide_True by done. by rewrite drop_app_length. Qed.

Lemma log_line_other all_files rel :
  SRC ++ rel ∉ pdf_files_of all_files →
  log_line here all_files (SRC ++ rel)
  = String.concat " " ["Copied:"; PurePath.str_rel rel].
Proof. intros H. unfold log_line. rewrite decide_False by done. by rewrite drop_app_length. Qed.

Lemma print_text_ok args s :
  print_text args = (s, true) → s = String.concat " " (arg_str <$> args).
Proof.
  revert s. induction args as [|a rest IH]; intros s; simpl.
  { by intros [= <-]. }
  destruct (arg_encodes a); [|done].
  destruct rest as [|b rest]; [by intros [= <-]|].
  destruct (print_text (b :: rest)) as [s' ok]. intros [= <- ->].
  by rewrite (IH s' eq_refl).
Qed.

Lemma print_Ok args w w' :
  print args w = (Ok tt, w') →
  w' = set_stdout (stdout w ++ [String.concat " " (arg_str <$> args)]) w.
Proof.
  unfold print. destruct (print_text args) as [s [|]] eqn:E; [|done].
  intros [= <-]. by rewrite (print_text_ok _ _ E).
Qed.

(** A file that was processed has its line on standard output. *)
Lemma do_file_stdout all_files stamp_page p w w' :
  do_file here all_files stamp_page p w = (Ok tt, w') →
  (∃ rel, p = SRC ++ rel) →
  stdout w' = stdout w ++ [log_line here all_files p].
Proof.
  intros Hrun [rel ->]. unfold do_file in Hrun. case_decide as Hpdf.
  - rewrite log_line_pdf by done. unfold do_pdf in Hrun.
    unfold relative_to in Hrun. rewrite strip_prefix_app in Hrun.
    apply bind_Ok_inv in Hrun as (rel' & w0 & [= <- <-] & Hrun).
    apply bind_Ok_inv in Hrun as ([] & w1 & Hprint & Hrun).
    apply print_Ok in Hprint as ->.
    apply keeps_stdout_watermark_pdf in Hrun. by rewrite Hrun.
  - rewrite log_line_other by done. unfold do_other in Hrun.
    unfold relative_to in Hrun. rewrite strip_prefix_app in Hrun.
    apply bind_Ok_inv in Hrun as (rel' & w0 & [= <- <-] & Hrun).
    apply bind_Ok_inv in Hrun as ([] & w1 & H1 & Hrun).
    apply keeps_stdout_mkdir in H1.
    apply bind_Ok_inv in Hrun as (dst & w2 & H2 & Hrun).
    apply keeps_stdout_copy2 in H2. apply print_Ok in Hrun as ->. simpl.
    by rewrite H2, H1.
Qed.

Lemma loop_stdout all_files stamp_page (ps : list Path) w w' :
  for_each ps (do_file here all_files stamp_page) w = (Ok tt, w') →
  (∀ p, p ∈ ps → ∃ rel, p = SRC ++ rel) →
  stdout w' = stdout w ++ (log_line here all_files <$> ps).
Proof.
  revert w. induction ps as [|x ps IH]; intros w Hrun Hps.
  { injection Hrun as <-. by rewrite app_nil_r. }
  simpl in Hrun. apply bind_Ok_inv in Hrun as ([] & w1 & Hx & Hrest).
  apply do_file_stdout in Hx; [|apply Hps; by left].
  rewrite (IH _ Hrest) by (intros; apply Hps; by right).
  rewrite Hx, <- app_assoc. done.
Qed.

Lemma all_files_under_source (fs : gmap Path node) (p : Path) :
  p ∈ files_in_order (all_files_of here fs) → ∃ rel, p = SRC ++ rel.
Proof.
  intros Hp. apply (proj1 (elem_of_files_in_order _ _)) in Hp.
  apply elem_of_all_files in Hp as (rel & -> & _). by exists rel.
Qed.

(** X1. A run that returns normally has printed, after what was on standard
    output before: for an empty tree the line saying so; otherwise one
    [Watermarking:] line per PDF in the order of enumeration, then one
    [Copied:] line per other file, then the summary, whose two counts add up
    to the number of enumerated files. *)
Theorem stdout_of_a_successful_run w w' :
  main here w = (Ok tt, w') →
  let all_files := all_files_of here (files w) in
  stdout w' = stdout w ++
    match all_files with
    | [] => ["No files found in " +:+ PurePath.str SRC]
    | _ => (log_line here all_files <$> pdf_files_of all_files)
           ++ (log_line here all_files <$> other_files_of all_files)
           ++ [summary here (pdf_files_of all_files) (other_files_of all_files)]
    end
  ∧ length (pdf_files_of all_files) + length (other_files_of all_files)
    = length all_files.
Proof.
  intros Hrun all_files. split.
  2:{ rewrite <- length_app. unfold all_files. by rewrite files_in_order_perm. }
  pose proof Hrun as Hrun0.
  destruct (main_cases w) as [(_ & e & E) | [(Hdir & Hall & out & E) | [(_ & _ & e & w1 & _ & _ & E)
    | (_ & Hne & w1 & r1 & wb & st & Htmp & _ & _ & Hbody & _ & E)]]];
    rewrite E in Hrun; try done.
  - rewrite main_eq, Hdir in Hrun0. fold all_files in Hall, Hrun0 |- *.
    rewrite Hall in Hrun0 |- *. by apply print_Ok in Hrun0 as ->.
  - clear Hrun0. injection Hrun as -> <-. simpl. fold all_files in Hne, Hbody.
    apply keeps_stdout_tempfile in Htmp.
    rewrite main_body_eq in Hbody.
    apply bind_Ok_inv in Hbody as (stamp_page & w0 & Hstamp & Hbody).
    apply keeps_stdout_load_stamp in Hstamp.
    apply bind_Ok_inv in Hbody as ([] & wk & Hloop & Hprint).
    apply loop_stdout in Hloop; [|apply all_files_under_source].
    apply print_Ok in Hprint as ->. simpl. rewrite Hloop, Hstamp, Htmp.
    unfold files_in_order. rewrite fmap_app, <- !app_assoc.
    by destruct all_files.
Qed.

(** ** Where a run writes *)

Lemma evolves_untouched (T D : Path → Prop) fs fs' q :
  evolves T D fs fs' → ¬ T q → ¬ D q → fs' !! q = fs !! q.
Proof.
  intros Hev HT HD. specialize (Hev q).
  destruct (fs !! q) as [[d st|]|].
  - by destruct Hev as (d' & st' & -> & [?|[-> ->]]).
  - done.
  - by destruct (fs' !! q) as [[d st|]|].
Qed.

Lemma evolves_nothing fs fs' :
  evolves (λ _, False) (λ _, False) fs fs' → fs' = fs.
Proof.
  intros Hev. apply map_eq. intros q.
  eapply evolves_untouched; [exact Hev|..]; by intros [].
Qed.

Lemma touched_below_output (ps : list Path) (q : Path) :
  touched here ps q → OUT `prefix_of` q.
Proof.
  intros (p & _ & [-> | ->]); unfold out_path, PurePath.joinpath.
  - by eexists.
  - rewrite <- app_assoc. by eexists.
Qed.

Lemma made_dirs_not_in_source (ps : list Path) (rel : Path) :
  ¬ made_dirs here ps (SRC ++ rel).
Proof.
  intros (p & _ & Hq). apply elem_of_prefixes_parent in Hq as [_ (k & _ & Hq)].
  unfold out_path, PurePath.joinpath in Hq. rewrite <- app_assoc in Hq.
  symmetry in Hq. by apply source_output_apart in Hq.
Qed.

Lemma source_not_below_output (rel : Path) : ¬ OUT `prefix_of` (SRC ++ rel).
Proof. intros [k Hk]. by apply source_output_apart in Hk. Qed.

(** X3. Whatever its outcome, a run leaves the source tree as it was: no
    entry is added or removed, and every file keeps its bytes, its mode
    bits and its modification time (reads may move access times, which are
    outside the model, as are links from the output into the source).
    Outside the output folder no file or directory is removed or changed,
    and no regular file is created or rewritten: the temporary file is gone
    when the run ends. *)
Theorem run_confined_to_output w :
  (∀ rel, files (main here w).2 !! (SRC ++ rel) = files w !! (SRC ++ rel))
  ∧ (∀ q n, ¬ OUT `prefix_of` q → files w !! q = Some n →
            files (main here w).2 !! q = Some n)
  ∧ (∀ q d st, ¬ OUT `prefix_of` q →
               files (main here w).2 !! q = Some (NFile d st) →
               files w !! q = Some (NFile d st)).
Proof.
  destruct (main here w) as [r w'] eqn:Hrun. simpl.
  pose proof (main_frame w _ _ Hrun) as Hev.
  split; [|split].
  - intros rel. eapply evolves_untouched; [done| |apply made_dirs_not_in_source].
    intros Ht%touched_below_output. by apply source_not_below_output in Ht.
  - intros q n Hq Hn. specialize (Hev q). rewrite Hn in Hev. destruct n as [d st|].
    + destruct Hev as (d' & st' & -> & [Ht%touched_below_output|[-> ->]]); done.
    + done.
  - intros q d st Hq Hn. specialize (Hev q). rewrite Hn in Hev.
    destruct (files w !! q) as [[d0 st0|]|].
    + destruct Hev as (d' & st' & [= <- <-] & [Ht%touched_below_output|[-> ->]]); done.
    + done.
    + by apply touched_below_output in Hev.
Qed.

Lemma stamp_stage_leaves_no_trace (tmp_path : Path) (st : stat_result)
    (fs0 : gmap Path node) (w1 : World) (r : result PageObject) (w2 : World) :
  fs0 !! tmp_path = None →
  files w1 = <[tmp_path := NFile [] st]> fs0 →
  load_stamp tmp_path w1 = (r, w2) →
  delete tmp_path (files w2) = fs0.
Proof.
  intros Hfree E1 Hstamp. apply evolves_nothing.
  eapply (evolves_restrict _ _ tmp_path); [done|done|].
  eapply evolves_mono; [..|eapply (changes_within_load_stamp (λ q, q = tmp_path)
                                     (λ _, False)); done]; [|done].
  intros q ->. by left.
Qed.

(** X4. When a run fails before the first file is taken up, because the
    temporary file cannot be created or because making or reading back the
    stamp fails, [main] raises that error, nothing has been printed, and the
    file system is exactly as it was before the run. *)
Theorem failure_before_the_files_leaves_no_trace w e :
  is_dir_in (files w) SRC = true →
  all_files_of here (files w) ≠ [] →
  (tempfile_NamedTemporaryFile w).1 = Raise e
  ∨ (∃ tmp_path w1,
       tempfile_NamedTemporaryFile w = (Ok tmp_path, w1)
       ∧ (load_stamp tmp_path w1).1 = Raise e) →
  (main here w).1 = Raise e
  ∧ files (main here w).2 = files w
  ∧ stdout (main here w).2 = stdout w.
Proof.
  intros Hdir Hne [Htmp | (tmp_path & w1 & Htmp & Hstamp)].
  - destruct (tempfile_NamedTemporaryFile w) as [rt w1] eqn:E. simpl in Htmp. subst rt.
    rewrite main_unfold by done. rewrite (bind_Raise _ _ _ _ _ E). simpl.
    pose proof (tempfile_inv _ _ _ E) as [(? & _ & Ef) | (? & [=] & _)].
    split; [done|]. split; [done|]. by eapply keeps_stdout_tempfile.
  - destruct (load_stamp tmp_path w1) as [rs w2] eqn:Es. simpl in Hstamp. subst rs.
    assert (Hbody : main_body here tmp_path (pdf_files_of (all_files_of here (files w)))
                      (other_files_of (all_files_of here (files w))) w1 = (Raise e, w2)).
    { rewrite main_body_eq. by apply bind_Raise. }
    destruct (main_run w _ _ _ _ Hdir Hne Htmp Hbody) as (-> & _ & Hfree).
    pose proof (tempfile_inv _ _ _ Htmp) as [(? & [=] & _) | (st & Et & _ & _ & E1)].
    injection Et as ->. simpl. split; [done|]. split.
    + by eapply stamp_stage_leaves_no_trace.
    + apply keeps_stdout_load_stamp in Es. apply keeps_stdout_tempfile in Htmp.
      by rewrite Es, Htmp.
Qed.

(** ** The stamp *)

Lemma create_watermark_pdf_eq (output_path : Path) w :
  create_watermark_pdf output_path w
  = canvas_save {| c_filename := output_path; c_pagesize := A4;
                   c_code := stamp_code |} w.
Proof. reflexivity. Qed.





Lemma load_stamp_Ok tmp_path w1 stamp_page w0 :
  load_stamp tmp_path w1 = (Ok stamp_page, w0) →
  ∃ rest, pdf_parse (canvas_render A4 stamp_code) = Some (stamp_page :: rest).
Proof.
  unfold load_stamp. intros Hrun.
  apply bind_Ok_inv in Hrun as ([] & w2 & Hmk & Hrun).
  apply bind_Ok_inv in Hrun as (pages & w3 & Hrd & Hfirst).
  rewrite create_watermark_pdf_eq in Hmk. unfold canvas_save in Hmk. simpl in Hmk.
  apply bind_Ok_inv in Hmk as ([] & w4 & _ & Hwrite).
  apply write_handle_Ok in Hwrite as (d1 & st & _ & E1).
  apply bind_Ok_inv in Hrd as (d & w5 & Hread & Hparse).
  apply read_bytes_Ok in Hread as [_ (st' & Hd)].
  rewrite E1, lookup_insert_eq in Hd. injection Hd as <- <-.
  destruct (pdf_parse _) as [pages'|]; [|done]. injection Hparse as -> _.
  destruct pages as [|pg rest]; [done|]. injection Hfirst as -> _. by exists rest.
Qed.

Lemma run_mirrored_stamp w w' :
  main here w = (Ok tt, w') →
  ¬ OUT `prefix_of` tempname w →
  all_files_of here (files w) ≠ [] →
  ∃ stamp_page rest,
    pdf_parse (canvas_render A4 stamp_code) = Some (stamp_page :: rest)
    ∧ ∀ p, p ∈ all_files_of here (files w) →
           mirrored here (files w) (files w') stamp_page p.
Proof.
  intros Hrun Htmp Hne.
  destruct (main_cases w) as [(_ & e & E) | [(_ & Hall & out & E) | [(_ & _ & e & w1 & _ & Ef & E)
    | (_ & _ & w1 & r1 & wb & st & _ & Hfree & E1 & Hbody & (d & st' & Hfile) & E)]]];
    rewrite E in Hrun; try done.
  injection Hrun as -> <-. rewrite main_body_eq in Hbody.
  apply bind_Ok_inv in Hbody as (stamp_page & w0 & Hstamp & Hbody).
  apply bind_Ok_inv in Hbody as ([] & wk & Hloop & Hprint).
  apply print_inv in Hprint as [_ Eb].
  destruct (load_stamp_Ok _ _ _ _ Hstamp) as [rest Hparse].
  exists stamp_page, rest. split; [done|]. intros p Hp. simpl.
  destruct (after_load_stamp _ _ _ _ _ Hfree E1 Hstamp) as [Hsrc Hkind].
  destruct (output_prefix_out_path _ _ Hp) as [Hp1 Hp2].
  eapply mirrored_delete; [|done| |]; [|intros Heq; apply Htmp; by rewrite Heq..].
  rewrite Eb.
  eapply loop_mirrored; [done|apply NoDup_files_in_order| | | |].
  - intros y Hy. by apply elem_of_files_in_order.
  - intros y Hy. apply Hsrc. by apply elem_of_files_in_order.
  - intros y Hy. apply Hkind.
  - by apply elem_of_files_in_order.
Qed.

(** X6. After a run that returned normally, with the temporary file drawn
    outside the output folder: the output of every PDF of the tree is the
    serialisation of its pages, each with the same stamp merged over it,
    and that stamp is the first page of the rendering of the drawing calls
    of [create_watermark_pdf]. *)
Theorem every_pdf_carries_the_stamp w w' p :
  main here w = (Ok tt, w') →
  ¬ OUT `prefix_of` tempname w →
  p ∈ pdf_files_of (all_files_of here (files w)) →
  ∃ stamp_page rest d st pages writer st',
    pdf_parse (canvas_render A4 stamp_code) = Some (stamp_page :: rest)
    ∧ files w !! p = Some (NFile d st)
    ∧ pdf_parse d = Some pages
    ∧ stamped stamp_page pages writer
    ∧ files w' !! out_path here p = Some (NFile (pdf_serialize writer) st').
Proof.
  intros Hrun Htmp Hp. apply elem_of_pdf_files in Hp as [Hp Hpdf].
  destruct (run_mirrored_stamp w w' Hrun Htmp) as (stamp_page & rest & Hparse & Hm).
  { intros E. rewrite E in Hp. by apply elem_of_nil in Hp. }
  destruct (Hm p Hp) as [_ (d & st & Hsrc & Hout)].
  rewrite decide_True in Hout by done.
  destruct Hout as (pages & writer & st' & ? & ? & ?).
  by exists stamp_page, rest, d, st, pages, writer, st'.
Qed.

(** ** Files the run did not reach *)

Lemma made_dirs_not_copy_target (fs0 : gmap Path node) (ps : list Path) (y : Path) :
  ps ⊆ all_files_of here fs0 → y ∈ all_files_of here fs0 →
  ¬ made_dirs here ps (out_path here y ++ [PurePath.name y]).
Proof.
  intros Hps Hy (x & Hx & Hq).
  apply elem_of_prefixes_parent in Hq as [_ (k & Hk & Hq)].
  rewrite <- app_assoc in Hq.
  eapply out_path_not_nested in Hq; [done|by apply Hps|done].
Qed.

Lemma failed_run_frame w tmp_path w1 stamp_page w0 pre f wk r wf :
  tempfile_NamedTemporaryFile w = (Ok tmp_path, w1) →
  load_stamp tmp_path w1 = (Ok stamp_page, w0) →
  for_each pre (do_file here (all_files_of here (files w)) stamp_page) w0 = (Ok tt, wk) →
  do_file here (all_files_of here (files w)) stamp_page f wk = (r, wf) →
  evolves (touched here (pre ++ [f])) (made_dirs here (pre ++ [f]))
          (files w) (delete tmp_path (files wf)).
Proof.
  intros Htmp Hstamp Hpre Hf.
  pose proof (tempfile_inv _ _ _ Htmp) as [(? & [=] & _) | (st & Et & _ & Hfree & E1)].
  injection Et as ->.
  eapply evolves_restrict; [done|done|].
  eapply evolves_trans; [|eapply evolves_trans].
  - eapply evolves_mono;
      [..|eapply (changes_within_load_stamp (λ q, q = tempname w) (λ _, False)); done].
    + intros q ->. by left.
    + done.
  - eapply evolves_mono; [..|eapply changes_within_files; done].
    + intros q Hq. right. eapply touched_mono; [|done]. intros y Hy.
      apply elem_of_app. by left.
    + intros q Hq. eapply made_dirs_mono; [|done]. intros y Hy.
      apply elem_of_app. by left.
  - eapply evolves_mono;
      [..|eapply (changes_within_do_file (touched here [f]) (made_dirs here [f])); [..|done]].
    + intros q Hq. right. eapply touched_mono; [|done].
      intros y ->%list_elem_of_singleton. apply elem_of_app. right. by left.
    + intros q Hq. eapply made_dirs_mono; [|done].
      intros y ->%list_elem_of_singleton. apply elem_of_app. right. by left.
    + exists f. split; [by left|by left].
    + exists f. split; [by left|by right].
    + intros q Hq. exists f. split; [by left|done].
Qed.

(** X7. In a run that fails at the file [f], the files
    that come after [f] in the order of processing have not been taken up:
    the output path of each of them, and the path below it where
    [shutil.copy2] would write into a directory, hold after the run what
    they held before it.  The PDFs come first, so when the failing file is
    a PDF no file at all has been copied. *)
Theorem files_after_a_failure_are_not_reached
    w tmp_path w1 stamp_page w0 pre f post wk e wf :
  is_dir_in (files w) SRC = true →
  let all_files := all_files_of here (files w) in
  files_in_order all_files = pre ++ f :: post →
  tempfile_NamedTemporaryFile w = (Ok tmp_path, w1) →
  load_stamp tmp_path w1 = (Ok stamp_page, w0) →
  for_each pre (do_file here all_files stamp_page) w0 = (Ok tt, wk) →
  do_file here all_files stamp_page f wk = (Raise e, wf) →
  (∀ p, p ∈ post →
        files (main here w).2 !! out_path here p = files w !! out_path here p
        ∧ files (main here w).2 !! (out_path here p ++ [PurePath.name p])
          = files w !! (out_path here p ++ [PurePath.name p]))
  ∧ (f ∈ pdf_files_of all_files → ∀ p, p ∈ other_files_of all_files → p ∈ post).
Proof.
  intros Hdir all_files Hsplit Htmp Hstamp Hpre Hfail.
  assert (Hne : all_files ≠ []).
  { intros E. rewrite E in Hsplit. by destruct pre. }
  assert (Hbody : main_body here tmp_path (pdf_files_of all_files)
                    (other_files_of all_files) w1 = (Raise e, wf)).
  { rewrite main_body_eq. rewrite (bind_Ok _ _ _ _ _ Hstamp).
    rewrite Hsplit. unfold bind at 1. rewrite for_each_app.
    unfold bind at 1. rewrite Hpre. simpl. unfold bind at 1. by rewrite Hfail. }
  destruct (main_run w _ _ _ _ Hdir Hne Htmp Hbody) as (-> & _). simpl.
  pose proof (failed_run_frame _ _ _ _ _ _ _ _ _ _ Htmp Hstamp Hpre Hfail) as Hev.
  assert (Hnd : NoDup (pre ++ f :: post)).
  { rewrite <- Hsplit. apply NoDup_files_in_order. }
  assert (Hsub : ∀ y, y ∈ pre ++ f :: post → y ∈ all_files).
  { intros y Hy. rewrite <- Hsplit in Hy.
    by apply (proj1 (elem_of_files_in_order _ _)) in Hy. }
  assert (Hdone : pre ++ [f] ⊆ all_files).
  { intros y Hy. apply Hsub. rewrite (assoc_L _ pre [f] post : pre ++ f :: post = _).
    apply elem_of_app. by left. }
  split.
  - intros p Hp.
    assert (Hpa : p ∈ all_files).
    { apply Hsub. apply elem_of_app. right. by right. }
    assert (Hnot : p ∉ pre ++ [f]).
    { rewrite (assoc_L _ pre [f] post : pre ++ f :: post = _) in Hnd.
      apply NoDup_app in Hnd as (_ & Hnd & _). intros Hin. by apply (Hnd p Hin). }
    destruct (touched_not_other_output (files w) _ p Hdone Hpa Hnot) as [Ht1 Ht2].
    split; (eapply evolves_untouched; [exact Hev|done|]).
    + by eapply made_dirs_not_output.
    + by eapply made_dirs_not_copy_target.
  - intros Hf p Hp.
    assert (Hin : p ∈ pre ++ f :: post).
    { rewrite <- Hsplit. apply elem_of_app. by right. }
    apply elem_of_other_files in Hp as [_ Hp'].
    apply elem_of_pdf_files in Hf as [_ Hf].
    apply elem_of_app in Hin as [Hin|Hin].
    2: { apply elem_of_cons in Hin as [->|Hin]; done. }
    exfalso. unfold files_in_order in Hsplit.
    apply app_eq_inv in Hsplit as [(k & E1 & E2) | (k & E1 & E2)].
    + assert (p ∈ pdf_files_of all_files) as [_ ?]%elem_of_pdf_files; [|done].
      rewrite E1. apply elem_of_app. by left.
    + assert (f ∈ other_files_of all_files) as [_ ?]%elem_of_other_files; [|done].
      rewrite E2. apply elem_of_app. right. by left.
Qed.

(** ** A run that meets no obstacle *)

Lemma syscall_quiet w : faults w = [] → syscall w = (Ok tt, w).
Proof. intros E. unfold syscall. by rewrite E. Qed.



Lemma relative_to_run (base rel : Path) w :
  relative_to (base ++ rel) base w = (Ok rel, w).
Proof. unfold relative_to. by rewrite strip_prefix_app. Qed.

Lemma read_bytes_run p w d st :
  faults w = [] → files w !! p = Some (NFile d st) → read_bytes p w = (Ok d, w).
Proof.
  intros Hq Hp. unfold read_bytes, bind. rewrite syscall_quiet by done. by rewrite Hp.
Qed.

Lemma open_wb_run p w :
  faults w = [] → p ≠ [] → is_dir_in (files w) (PurePath.parent p) = true →
  files w !! p ≠ Some NDir →
  ∃ w', open_wb p w = (Ok tt, w') ∧ faults w' = [].
Proof.
  intros Hq Hp Hpar Hnd. unfold open_wb, bind. rewrite syscall_quiet by done.
  destruct p as [|c p0]; [done|]. rewrite Hpar. simpl.
  destruct (files w !! (c :: p0)) as [[d st|]|]; [|done|]; by eexists.
Qed.

Lemma write_handle_run p data w d0 st :
  faults w = [] → files w !! p = Some (NFile d0 st) →
  ∃ w', write_handle p data w = (Ok tt, w') ∧ faults w' = [].
Proof.
  intros Hq Hp. unfold write_handle, bind. rewrite syscall_quiet by done.
  rewrite Hp. by eexists.
Qed.

Lemma ensure_dir_run p q w :
  faults w = [] → is_file_in (files w) q = false →
  ∃ w', ensure_dir p q w = (Ok tt, w') ∧ faults w' = [].
Proof.
  intros Hq Hf. unfold ensure_dir, is_file_in in *.
  destruct (files w !! q) as [[d st|]|]; [done|by eexists|].
  unfold bind. rewrite syscall_quiet by done. by eexists.
Qed.

Lemma evolves_is_file (T D : Path → Prop) fs fs' q :
  evolves T D fs fs' → ¬ T q → is_file_in fs q = false → is_file_in fs' q = false.
Proof.
  intros Hev HT Hf. specialize (Hev q). unfold is_file_in in *.
  destruct (fs !! q) as [[d st|]|]; [done|by rewrite Hev|].
  by destruct (fs' !! q) as [[d st|]|].
Qed.

Lemma mkdir_run p w :
  faults w = [] → (∀ q, q ∈ prefixes p → is_file_in (files w) q = false) →
  ∃ w', Path_mkdir_parents_exist_ok p w = (Ok tt, w') ∧ faults w' = [].
Proof.
  unfold Path_mkdir_parents_exist_ok. generalize (prefixes p). intros l. revert w.
  induction l as [|x l IH]; intros w Hq Hf.
  { by eexists. }
  destruct (ensure_dir_run p x w Hq) as (w1 & E1 & Hq1); [apply Hf; by left|].
  destruct (IH w1 Hq1) as (w2 & E2 & Hq2).
  { intros q Hin.
    eapply evolves_is_file;
      [by eapply (changes_within_ensure_dir (λ _, False) (λ _, True) p x)
      |by intros []|apply Hf; by right]. }
  exists w2. simpl. by rewrite (bind_Ok _ _ _ _ _ E1).
Qed.

Lemma mkdir_makes_dir p w w' :
  Path_mkdir_parents_exist_ok p w = (Ok tt, w') → is_dir_in (files w') p = true.
Proof.
  intros Hrun. pose proof (mkdir_Ok _ _ _ Hrun) as Hdirs.
  unfold is_dir_in. destruct p as [|c l]; [done|].
  rewrite Hdirs; [done|]. apply elem_of_prefixes. split; [done|].
  exists []. by rewrite app_nil_r.
Qed.

Lemma not_dir_at (fs : gmap Path node) (p : Path) :
  is_dir_in fs p = false → fs !! p ≠ Some NDir.
Proof. intros Hnd E. unfold is_dir_in in Hnd. destruct p; [done|]. by rewrite E in Hnd. Qed.




Lemma watermark_pdf_run input output stamp_page w d st pages :
  faults w = [] → files w !! input = Some (NFile d st) → pdf_parse d = Some pages →
  (∀ q, q ∈ prefixes (PurePath.parent output) → is_file_in (files w) q = false) →
  output ≠ [] → is_dir_in (files w) output = false →
  ∃ w', watermark_pdf input output stamp_page w = (Ok tt, w') ∧ faults w' = [].
Proof.
  intros Hq Hin Hparse Hway Hout Hnd. unfold watermark_pdf, PdfReader_pages.
  rewrite bind_assoc. rewrite (bind_Ok _ _ _ _ _ (read_bytes_run _ _ _ _ Hq Hin)).
  rewrite Hparse. rewrite (bind_Ok _ _ w pages w eq_refl).
  destruct (stamp_loop stamp_page pages [] w) as (writer & E & _).
  rewrite (bind_Ok _ _ _ _ _ E).
  destruct (mkdir_run (PurePath.parent output) w Hq Hway) as (w1 & E1 & Hq1).
  rewrite (bind_Ok _ _ _ _ _ E1).
  destruct (open_wb_run output w1 Hq1 Hout) as (w2 & E2 & Hq2).
  { by eapply mkdir_makes_dir. }
  { apply not_dir_at. by rewrite (mkdir_is_dir _ _ _ _ E1). }
  rewrite (bind_Ok _ _ _ _ _ E2).
  apply open_wb_Ok in E2 as (_ & st1 & Ef & _). unfold PdfWriter_write.
  eapply write_handle_run; [done|]. rewrite Ef. apply lookup_insert_eq.
Qed.

(** C3. For an input whose bytes parse to [pages]: the page loop of
    [watermark_pdf] runs to its end and yields a writer with one merged
    page per input page, in the order of the input; with no fault of the
    environment, no regular file where a directory above the output is
    needed and no directory at the output path, [watermark_pdf] returns;
    and whenever it returns, the output file holds the serialisation of
    such a writer, so the written document has as many pages as the input. *)
Theorem watermark_pdf_page_count input output stamp_page w d st pages :
  files w !! input = Some (NFile d st) →
  pdf_parse d = Some pages →
  (∀ w1, ∃ writer,
      for_fold pages [] (stamp_one stamp_page) w1 = (Ok writer, w1)
      ∧ stamped stamp_page pages writer)
  ∧ (faults w = [] →
     (∀ q, q ∈ prefixes (PurePath.parent output) → is_file_in (files w) q = false) →
     output ≠ [] →
     is_dir_in (files w) output = false →
     ∃ w', watermark_pdf input output stamp_page w = (Ok tt, w'))
  ∧ (∀ w', watermark_pdf input output stamp_page w = (Ok tt, w') →
       ∃ writer st',
         stamped stamp_page pages writer
         ∧ length writer = length pages
         ∧ files w' !! output = Some (NFile (pdf_serialize writer) st')).
Proof.
  intros Hin Hparse. split; [|split].
  - intros w1. destruct (stamp_loop stamp_page pages [] w1) as (out & Hrun & Hlen & Hout).
    exists out. done.
  - intros Hq Hway Hne Hnd.
    destruct (watermark_pdf_run input output stamp_page w d st pages)
      as (w' & E & _); try done. by exists w'.
  - intros w' Hrun.
    apply watermark_pdf_Ok in Hrun
      as (d0 & st0 & pages0 & writer & st' & Hin0 & Hp0 & Hlen & Hpages & Hout & _).
    rewrite Hin in Hin0. injection Hin0 as <- <-.
    rewrite Hparse in Hp0. injection Hp0 as <-.
    exists writer, st'. done.
Qed.





(** X9. Whatever its outcome, [watermark_pdf] prints nothing and changes
    the file system only at the output path and by making directories above
    it: every other entry stays as it was (a file keeps its bytes, mode
    bits and modification time; the access time of the input that is read
    is outside the model), and an entry that appears is a directory on the
    way down to the output path.  If a directory stands at the output path
    the call fails and the directory is still there. *)
Theorem watermark_pdf_changes_only_the_output input output stamp_page w :
  (∀ q n, q ≠ output → files w !! q = Some n →
          files (watermark_pdf input output stamp_page w).2 !! q = Some n)
  ∧ (∀ q n, q ≠ output → files w !! q = None →
            files (watermark_pdf input output stamp_page w).2 !! q = Some n →
            n = NDir ∧ q ∈ prefixes (PurePath.parent output))
  ∧ (files w !! output = Some NDir →
     files (watermark_pdf input output stamp_page w).2 !! output = Some NDir
     ∧ ∃ e, (watermark_pdf input output stamp_page w).1 = Raise e)
  ∧ stdout (watermark_pdf input output stamp_page w).2 = stdout w.
Proof.
  destruct (watermark_pdf input output stamp_page w) as [r w'] eqn:Hrun. simpl.
  pose proof (changes_within_watermark_pdf (λ q, q = output)
                (λ q, q ∈ prefixes (PurePath.parent output))
                input output stamp_page eq_refl (λ _ H, H) _ _ _ Hrun) as Hev.
  split; [|split; [|split]].
  - intros q n Hq Hn. destruct n as [d st|].
    + by eapply evolves_file_same.
    + by eapply evolves_dir.
  - intros q n Hq Hnone Hn. specialize (Hev q). rewrite Hnone, Hn in Hev.
    by destruct n as [d st|].
  - intros Hdir. pose proof (evolves_dir _ _ _ _ _ Hev Hdir) as Hdir'.
    split; [done|]. destruct r as [[]|e]; [|by exists e].
    apply watermark_pdf_Ok in Hrun as (? & ? & ? & ? & ? & _ & _ & _ & _ & Hout & _).
    by rewrite Hdir' in Hout.
  - by eapply keeps_stdout_watermark_pdf.
Qed.

(** X10. When the input of [watermark_pdf] cannot be read as a document (it
    is missing, it is a directory, or its bytes do not parse), the call
    raises before it writes anything: the file system is as it was (the
    same entries, each file with its bytes, mode bits and modification
    time), no directory has been made for the output.  With no fault of the
    environment the error is [FileNotFoundError], [IsADirectoryError] or
    the reader's [PdfReadError], in these three cases. *)
Theorem watermark_pdf_unreadable_input input output stamp_page w :
  (∀ d st, files w !! input = Some (NFile d st) → pdf_parse d = None) →
  ∃ e, (watermark_pdf input output stamp_page w).1 = Raise e
       ∧ files (watermark_pdf input output stamp_page w).2 = files w
       ∧ (faults w = [] →
          e = match files w !! input with
              | None => OSError FileNotFoundError
              | Some NDir => OSError IsADirectoryError
              | Some (NFile _ _) => PdfReadError
              end).
Proof.
  intros Hbad. unfold watermark_pdf, PdfReader_pages. rewrite bind_assoc.
  destruct (read_bytes input w) as [[d|e] w1] eqn:Hread.
  - rewrite (bind_Ok _ _ _ _ _ Hread).
    apply read_bytes_Ok in Hread as [Ef (st & Hin)].
    rewrite (Hbad _ _ Hin). exists PdfReadError. simpl.
    split; [done|]. split; [done|]. by rewrite Hin.
  - rewrite (bind_Raise _ _ _ _ _ Hread). exists e. simpl.
    split; [done|]. split.
    + apply evolves_nothing.
      by eapply (changes_within_read_bytes (λ _, False) (λ _, False)).
    + intros Hq. unfold read_bytes, bind in Hread. rewrite syscall_quiet in Hread by done.
      destruct (files w !! input) as [[d st|]|]; by inversion Hread.
Qed.

(** X11. [watermark_pdf] succeeds when nothing stands in its way: the
    environment fails no system call, the input is a regular file that
    parses, no regular file lies where a directory above the output is
    needed, and no directory stands at the output path.  The output then
    holds the serialisation of the pages of the input, each with the stamp
    merged over it, in the order of the input; the directories above it
    exist. *)
Theorem watermark_pdf_succeeds input output stamp_page w d st pages :
  faults w = [] →
  files w !! input = Some (NFile d st) →
  pdf_parse d = Some pages →
  (∀ q, q ∈ prefixes (PurePath.parent output) → is_file_in (files w) q = false) →
  output ≠ [] →
  is_dir_in (files w) output = false →
  ∃ w' writer st',
    watermark_pdf input output stamp_page w = (Ok tt, w')
    ∧ stamped stamp_page pages writer
    ∧ files w' !! output = Some (NFile (pdf_serialize writer) st')
    ∧ ∀ q, q ∈ prefixes (PurePath.parent output) → files w' !! q = Some NDir.
Proof.
  intros Hq Hin Hparse Hway Hout Hnd.
  destruct (watermark_pdf_run input output stamp_page w d st pages)
    as (w' & E & _); try done.
  pose proof (watermark_pdf_Ok _ _ _ _ _ E)
    as (d' & st0 & pages' & writer & st' & Hin' & Hp' & Hlen & Hpg & Hfile & Hdirs).
  rewrite Hin in Hin'. injection Hin' as <- <-.
  rewrite Hparse in Hp'. injection Hp' as <-.
  by exists w', writer, st'.
Qed.

(** ** The errors of a run *)

Lemma raises_only_mono {A} (P Q : exn → Prop) (m : M A) :
  (∀ e, P e → Q e) → raises_only P m → raises_only Q m.
Proof. intros H Hm w e w' E. eapply H, Hm, E. Qed.

Lemma raises_only_bind {A B} (P : exn → Prop) (m : M A) (k : A → M B) :
  raises_only P m → (∀ a, raises_only P (k a)) → raises_only P (bind m k).
Proof.
  intros Hm Hk w e w' H.
  apply bind_inv in H as [(a & w1 & H1 & H2) | (e' & H1 & [= <-])].
  - by eapply Hk.
  - by eapply Hm.
Qed.

Lemma raises_only_ok {A} (P : exn → Prop) (m : M A) :
  (∀ w, ∃ a w', m w = (Ok a, w')) → raises_only P m.
Proof. intros H w e w' E. destruct (H w) as (a & w1 & E1). congruence. Qed.

Lemma raises_only_for_each {A} (P : exn → Prop) (l : list A) (body : A → M unit) :
  (∀ x, x ∈ l → raises_only P (body x)) → raises_only P (for_each l body).
Proof.
  induction l as [|x l IH]; intros H; simpl.
  - apply raises_only_ok. intros w. by exists tt, w.
  - apply raises_only_bind; [apply H; by left|]. intros _. apply IH.
    intros y Hy. apply H. by right.
Qed.


Lemma raises_only_syscall : raises_only os_error syscall.
Proof.
  intros w e w' H. unfold syscall in H.
  destruct (faults w) as [|[k|] rest]; inversion H. by eexists.
Qed.

Lemma raises_only_read_bytes p : raises_only os_error (read_bytes p).
Proof.
  apply raises_only_bind; [apply raises_only_syscall|].
  intros _ w e w' H. cbv beta in H.
  destruct (files w !! p) as [[d st|]|]; inversion H; by eexists.
Qed.

Lemma os_error_no_parent (fs : gmap Path node) (p : Path) : os_error (no_parent fs p).
Proof. unfold no_parent. destruct (fs !! PurePath.parent p) as [[d st|]|]; by eexists. Qed.

Lemma raises_only_open_wb p : raises_only os_error (open_wb p).
Proof.
  apply raises_only_bind; [apply raises_only_syscall|].
  intros _ w e w' H. cbv beta in H.
  destruct p as [|c p0]; [inversion H; by eexists|].
  destruct (negb (is_dir_in (files w) (PurePath.parent (c :: p0)))).
  { inversion H. apply os_error_no_parent. }
  destruct (files w !! (c :: p0)) as [[d st|]|]; inversion H; by eexists.
Qed.

(** Writing through a handle that was just opened does not find it closed. *)
Lemma raises_only_open_write p data :
  raises_only os_error (open_wb p >> write_handle p data).
Proof.
  intros w e w' H. apply bind_inv in H as [([] & w1 & H1 & H2) | (e' & H1 & [= <-])].
  - apply open_wb_Ok in H1 as (_ & st & Ef & _).
    unfold write_handle in H2.
    apply bind_inv in H2 as [([] & w2 & H3 & H4) | (e' & H3 & [= <-])].
    + apply syscall_files in H3. cbv beta in H4.
      rewrite H3, Ef, lookup_insert_eq in H4. done.
    + by eapply raises_only_syscall.
  - by eapply raises_only_open_wb.
Qed.

Lemma raises_only_ensure_dir p q : raises_only os_error (ensure_dir p q).
Proof.
  intros w e w' H. unfold ensure_dir in H.
  destruct (files w !! q) as [[d st|]|].
  - inversion H. by eexists.
  - done.
  - apply bind_inv in H as [([] & w1 & _ & H) | (e' & H1 & [= <-])]; [done|].
    by eapply raises_only_syscall.
Qed.

Lemma raises_only_mkdir p : raises_only os_error (Path_mkdir_parents_exist_ok p).
Proof. apply raises_only_for_each. intros q _. apply raises_only_ensure_dir. Qed.

Lemma raises_only_copyfile src dst :
  src ≠ dst → raises_only os_error (shutil_copyfile src dst).
Proof.
  intros Hne. unfold shutil_copyfile. rewrite decide_False by done.
  apply raises_only_bind; [apply raises_only_read_bytes|].
  intros d. apply raises_only_open_write.
Qed.

Lemma raises_only_copystat src dst : raises_only os_error (shutil_copystat src dst).
Proof.
  apply raises_only_bind; [apply raises_only_syscall|].
  intros _ w e w' H. cbv beta in H.
  destruct (files w !! src) as [[d0 st|]|], (files w !! dst) as [[d st0|]|];
    inversion H; by eexists.
Qed.

Lemma raises_only_copy_to src dst :
  src ≠ dst →
  raises_only os_error (shutil_copyfile src dst >> shutil_copystat src dst >> ret dst).
Proof.
  intros Hne. apply raises_only_bind; [by apply raises_only_copyfile|]. intros _.
  apply raises_only_bind; [apply raises_only_copystat|]. intros _.
  apply raises_only_ok. intros w. by exists dst, w.
Qed.

(** [shutil.copy2] complains of a copy onto itself only when source and
    destination are the same file. *)
Lemma raises_only_copy2 src dst :
  src ≠ dst → src ≠ PurePath.joinpath dst [PurePath.name src] →
  raises_only os_error (shutil_copy2 src dst).
Proof.
  intros Hne1 Hne2 w e w' H. unfold shutil_copy2 in H.
  rewrite (bind_Ok (Path_is_dir dst) _ w (is_dir_in (files w) dst) w eq_refl) in H.
  cbv beta zeta in H.
  destruct (is_dir_in (files w) dst); by eapply raises_only_copy_to in H.
Qed.



Lemma raises_only_PdfReader_pages p : raises_only run_error (PdfReader_pages p).
Proof.
  apply raises_only_bind.
  { eapply raises_only_mono; [|apply raises_only_read_bytes]. by left. }
  intros d w e w' H. destruct (pdf_parse d); inversion H. right. by left.
Qed.

Lemma raises_only_watermark_pdf input output stamp_page :
  raises_only run_error (watermark_pdf input output stamp_page).
Proof.
  unfold watermark_pdf.
  apply raises_only_bind; [apply raises_only_PdfReader_pages|]. intros pages.
  apply raises_only_bind.
  { apply raises_only_ok. intros w.
    destruct (stamp_loop stamp_page pages [] w) as (out & E & _). by eexists; eexists. }
  intros writer. eapply raises_only_mono; [intros e He; left; exact He|].
  apply raises_only_bind; [apply raises_only_mkdir|]. intros _.
  apply (raises_only_open_write output (pdf_serialize writer)).
Qed.


Lemma print_text_false args s :
  print_text args = (s, false) → ∃ a, a ∈ args ∧ arg_encodes a = false.
Proof.
  revert s. induction args as [|a rest IH]; intros s; simpl; [done|].
  destruct (arg_encodes a) eqn:Ea; [|intros _; exists a; split; [by left|done]].
  destruct rest as [|b rest]; [done|].
  destruct (print_text (b :: rest)) as [s' ok]. intros [= _ ->].
  destruct (IH s' eq_refl) as (a' & Ha' & Hf). exists a'. split; [by right|done].
Qed.

Lemma print_Raise args w e w' :
  print args w = (Raise e, w') →
  e = UnicodeEncodeError ∧ ∃ a, a ∈ args ∧ arg_encodes a = false.
Proof.
  unfold print. destruct (print_text args) as [s [|]] eqn:E; [done|].
  intros [= <- _]. split; [done|]. by eapply print_text_false.
Qed.

(** The line of a name: all of it, or its first word. *)
Lemma print_name (word : string) (rel : Path) w :
  print [Lit word; Rel rel] w
  = if encodes (PurePath.str_rel rel)
    then (Ok tt, set_stdout (stdout w ++ [String.concat " " [word; PurePath.str_rel rel]]) w)
    else (Raise UnicodeEncodeError, set_stdout (stdout w ++ [word +:+ " "]) w).
Proof.
  unfold print. simpl. destruct (encodes (PurePath.str_rel rel)); [done|].
  change (" " +:+ "") with " ". by destruct word.
Qed.

Lemma os_error_not_text (e : exn) : os_error e → e ≠ UnicodeEncodeError.
Proof. by intros [k ->]. Qed.

Lemma run_error_not_text (e : exn) : run_error e → e ≠ UnicodeEncodeError.
Proof. intros [[k ->] | [-> | ->]]; done. Qed.

(** [relative_to] does not fail on an enumerated file, the copy of a
    source file never lands on the file itself, and a [print] fails on the
    name of the file only. *)
Lemma raises_only_do_file all_files stamp_page (p : Path) :
  (∃ rel, p = SRC ++ rel) →
  raises_only (λ e, run_error e ∨ (e = UnicodeEncodeError ∧ printable here p = false))
    (do_file here all_files stamp_page p).
Proof.
  intros [rel ->] w e w' H. unfold printable. rewrite drop_app_length.
  unfold do_file in H. case_decide as Hpdf.
  - unfold do_pdf in H. rewrite (bind_Ok _ _ _ _ _ (relative_to_run _ _ _)) in H.
    apply bind_inv in H as [([] & w1 & _ & H) | (e' & H1 & [= <-])].
    + left. by eapply raises_only_watermark_pdf.
    + right. rewrite print_name in H1.
      destruct (encodes (PurePath.str_rel rel)); [done|]. by injection H1 as <- _.
  - unfold do_other in H. rewrite (bind_Ok _ _ _ _ _ (relative_to_run _ _ _)) in H.
    revert H. unfold PurePath.joinpath. intros H.
    apply bind_inv in H as [([] & w1 & _ & H) | (e' & H1 & [= <-])];
      [|left; left; by eapply raises_only_mkdir].
    apply bind_inv in H as [(dst & w2 & _ & H) | (e' & H1 & [= <-])].
    + right. rewrite print_name in H.
      destruct (encodes (PurePath.str_rel rel)); [done|]. by injection H as <- _.
    + left. left. eapply raises_only_copy2; [| |exact H1].
      * apply source_output_apart.
      * unfold PurePath.joinpath. rewrite <- app_assoc. apply source_output_apart.
Qed.



(** ** What a failed run has printed *)

Lemma do_file_stdout_failed all_files stamp_page p w e w' :
  do_file here all_files stamp_page p w = (Raise e, w') →
  (∃ rel, p = SRC ++ rel) →
  stdout w' = stdout w ++ failed_line here all_files p e.
Proof.
  intros Hrun [rel ->]. unfold failed_line, printable.
  unfold do_file in Hrun. case_decide as Hpdf.
  - rewrite log_line_pdf by done. rewrite drop_app_length.
    unfold do_pdf in Hrun. rewrite (bind_Ok _ _ _ _ _ (relative_to_run _ _ _)) in Hrun.
    unfold bind in Hrun. rewrite print_name in Hrun.
    destruct (encodes (PurePath.str_rel rel)).
    + by apply keeps_stdout_watermark_pdf in Hrun.
    + by injection Hrun as _ <-.
  - unfold do_other in Hrun.
    rewrite (bind_Ok _ _ _ _ _ (relative_to_run _ _ _)) in Hrun.
    revert Hrun. unfold PurePath.joinpath. intros Hrun.
    apply bind_inv in Hrun as [([] & w1 & H1 & Hrun) | (e' & H1 & [= <-])].
    2:{ pose proof (raises_only_mkdir _ _ _ _ H1) as [k ->].
        apply keeps_stdout_mkdir in H1. by rewrite H1, app_nil_r. }
    apply keeps_stdout_mkdir in H1.
    apply bind_inv in Hrun as [(dst & w2 & H2 & Hrun) | (e' & H2 & [= <-])].
    2:{ assert (os_error e) as [k ->].
        { eapply raises_only_copy2; [| |exact H2].
          - apply source_output_apart.
          - unfold PurePath.joinpath. rewrite <- app_assoc. apply source_output_apart. }
        apply keeps_stdout_copy2 in H2. by rewrite H2, H1, app_nil_r. }
    apply keeps_stdout_copy2 in H2. rewrite print_name in Hrun.
    destruct (encodes (PurePath.str_rel rel)); [done|].
    injection Hrun as <- <-. simpl. by rewrite H2, H1.
Qed.

(** X2. In a run that fails at the file [f] after the files [pre] were
    processed, standard output holds: the lines of the files of [pre];
    then, for a PDF, its [Watermarking:] line, which is printed before the
    document is opened, or only the first word of it when the name of [f]
    is text that standard output does not take; for a file to copy,
    nothing when making the directories or the copy failed, and the first
    word of its [Copied:] line when the copy was made and printing its name
    failed.  The summary is not printed, and [UnicodeEncodeError] is raised
    at a file whose relative path does not encode, and only there. *)
Theorem stdout_of_a_failed_run w tmp_path w1 stamp_page w0 pre f post wk e wf :
  is_dir_in (files w) SRC = true →
  let all_files := all_files_of here (files w) in
  files_in_order all_files = pre ++ f :: post →
  tempfile_NamedTemporaryFile w = (Ok tmp_path, w1) →
  load_stamp tmp_path w1 = (Ok stamp_page, w0) →
  for_each pre (do_file here all_files stamp_page) w0 = (Ok tt, wk) →
  do_file here all_files stamp_page f wk = (Raise e, wf) →
  (main here w).1 = Raise e
  ∧ stdout (main here w).2
    = stdout w ++ (log_line here all_files <$> pre) ++ failed_line here all_files f e
  ∧ (e = UnicodeEncodeError → printable here f = false)
  ∧ (f ∈ pdf_files_of all_files → printable here f = false → e = UnicodeEncodeError).
Proof.
  intros Hdir all_files Hsplit Htmp Hstamp Hpre Hfail.
  assert (Hne : all_files ≠ []).
  { intros E. rewrite E in Hsplit. by destruct pre. }
  assert (Hunder : ∀ p, p ∈ pre ++ f :: post → ∃ rel, p = SRC ++ rel).
  { intros p Hp. rewrite <- Hsplit in Hp. by eapply all_files_under_source. }
  assert (Hf : ∃ rel, f = SRC ++ rel).
  { apply Hunder, elem_of_app. right. by left. }
  assert (Hbody : main_body here tmp_path (pdf_files_of all_files)
                    (other_files_of all_files) w1 = (Raise e, wf)).
  { rewrite main_body_eq. rewrite (bind_Ok _ _ _ _ _ Hstamp).
    rewrite Hsplit. unfold bind at 1. rewrite for_each_app.
    unfold bind at 1. rewrite Hpre. simpl. unfold bind at 1. by rewrite Hfail. }
  destruct (main_run w _ _ _ _ Hdir Hne Htmp Hbody) as (-> & _).
  split; [done|]. simpl. split; [|split].
  - apply do_file_stdout_failed in Hfail; [|done].
    apply loop_stdout in Hpre; [|intros p Hp; apply Hunder, elem_of_app; by left].
    apply keeps_stdout_load_stamp in Hstamp. apply keeps_stdout_tempfile in Htmp.
    rewrite Hfail, Hpre, Hstamp, Htmp, <- app_assoc. done.
  - intros ->.
    destruct (raises_only_do_file _ _ _ Hf _ _ _ Hfail) as [He | [_ Hbad]]; [|done].
    by apply run_error_not_text in He.
  - intros Hpdf Hbad. destruct Hf as [rel ->].
    unfold printable in Hbad. rewrite drop_app_length in Hbad.
    unfold do_file in Hfail. rewrite decide_True in Hfail by done.
    unfold do_pdf in Hfail.
    rewrite (bind_Ok _ _ _ _ _ (relative_to_run _ _ _)) in Hfail.
    unfold bind in Hfail. rewrite print_name, Hbad in Hfail. by injection Hfail as <- _.
Qed.

End Run.


(** * The theorems at work on a small tree *)

Lemma scale_stamp_to_page_spec_witness :
  scale_stamp_to_page Demo.a4_page Demo.letter_page
  = Ok (scale Transformation_new (612 / fst A4)%float (792 / snd A4)%float)
  ∧ scale_stamp_to_page Demo.flat_page Demo.letter_page = Ok Transformation_new.
Proof.
  split.
  - destruct (scale_stamp_to_page_spec Demo.a4_page Demo.letter_page) as (_ & H & _).
    apply H; reflexivity.
  - destruct (scale_stamp_to_page_spec Demo.flat_page Demo.letter_page) as (_ & _ & H).
    apply H. left. reflexivity.
Defined.

Lemma dispatch_by_suffix_witness :
  ["home"; "u"; "docs"; "sub"; "c.PDF"]
    ∈ pdf_files_of (all_files_of Demo.here (files Demo.good))
  ∧ ["home"; "u"; "docs"; "b.jpg"]
    ∈ other_files_of (all_files_of Demo.here (files Demo.good)).
Proof.
  destruct (dispatch_by_suffix Demo.here (files Demo.good)) as (H & _). split.
  - destruct (H ["home"; "u"; "docs"; "sub"; "c.PDF"]) as (H1 & _); [compute_done|].
    apply (proj2 H1). reflexivity.
  - destruct (H ["home"; "u"; "docs"; "b.jpg"]) as (_ & H2 & _); [compute_done|].
    apply (proj2 H2). discriminate.
Defined.

Lemma dot_pdf_is_copied_witness :
  ["home"; "u"; "docs"; ".pdf"]
    ∈ other_files_of (all_files_of Demo.here (files Demo.dotty))
  ∧ ["home"; "u"; "docs"; "x.Pdf"]
    ∈ pdf_files_of (all_files_of Demo.here (files Demo.dotty)).
Proof.
  split.
  - destruct (dot_pdf_is_copied Demo.here (files Demo.dotty)
                ["home"; "u"; "docs"; ".pdf"]) as (H & _).
    apply H; [reflexivity|compute_done].
  - destruct (dot_pdf_is_copied Demo.here (files Demo.dotty)
                ["home"; "u"; "docs"; "x.Pdf"]) as (_ & H).
    apply (H "x" ".Pdf"); [reflexivity|discriminate|reflexivity|compute_done].
Defined.

Lemma main_source_missing_witness :
  main Demo.here Demo.nowhere
  = (Raise (SystemExit "Source folder not found: /home/u/docs"), Demo.nowhere).
Proof.
  apply (main_source_missing Demo.here Demo.nowhere). left. vm_compute. reflexivity.
Defined.


Lemma watermark_pdf_page_count_witness :
  ∃ w' writer st',
    watermark_pdf ["home"; "u"; "docs"; "a.pdf"] ["tmp"; "out.pdf"]
      Demo.a4_page Demo.good = (Ok tt, w')
    ∧ length writer = 2
    ∧ files w' !! ["tmp"; "out.pdf"] = Some (NFile (pdf_serialize writer) st').
Proof.
  destruct (watermark_pdf_page_count ["home"; "u"; "docs"; "a.pdf"] ["tmp"; "out.pdf"]
              Demo.a4_page Demo.good [Byte.x4c; Byte.x4c] Demo.st0
              [Demo.letter_page; Demo.letter_page]) as (_ & Hruns & H);
    [vm_compute; reflexivity | vm_compute; reflexivity |].
  destruct Hruns as [w' Hrun].
  - reflexivity.
  - intros q Hq. apply list_elem_of_singleton in Hq as ->. vm_compute. reflexivity.
  - discriminate.
  - vm_compute. reflexivity.
  - destruct (H w' Hrun) as (writer & st' & _ & Hlen & Hout).
    exists w', writer, st'. split; [exact Hrun|]. split; [exact Hlen|exact Hout].
Defined.

Lemma demo_output_fresh (w : World) (q : Path) :
  files w = Demo.tree [Byte.x4c; Byte.x4c] [Byte.x4c] →
  OUTPUT_FOLDER Demo.here `prefix_of` q → files w !! q = None.
Proof. intros -> [k ->]. unfold Demo.tree. not_a_key. Qed.

Lemma demo_temp_outside : ¬ OUTPUT_FOLDER Demo.here `prefix_of` tempname Demo.good.
Proof. intros [k Hk]. discriminate Hk. Qed.

Lemma output_mirrors_source_witness :
  list_to_set (regular_files_under (files (main Demo.here Demo.good).2)
                 (OUTPUT_FOLDER Demo.here))
  =@{gset Path} list_to_set (regular_files_under (files Demo.good)
                               (SOURCE_FOLDER Demo.here))
  ∧ length (regular_files_under (files (main Demo.here Demo.good).2)
              (OUTPUT_FOLDER Demo.here)) = 3.
Proof.
  destruct (output_mirrors_source Demo.here Demo.good (main Demo.here Demo.good).2)
    as (_ & H & _); [vm_compute; reflexivity | apply demo_temp_outside |].
  destruct H as [Hset Hlen]; [intros q Hq _; by apply demo_output_fresh|].
  split; [exact Hset|]. rewrite Hlen. vm_compute. reflexivity.
Defined.

(** The claim C1 as the spec has it fails where a directory stands at an
    output path: the run on [stale] returns normally, [b.jpg] is a regular
    file of the source tree, and after the run there is no regular file at
    [b.jpg] below the output folder (the copy is inside the directory of
    that name), so that the two trees do not hold the same relative paths. *)
Lemma output_mirrors_source_counterexample :
  (main Demo.here Demo.stale).1 = Ok tt
  ∧ ["b.jpg"] ∈ regular_files_under (files Demo.stale) (SOURCE_FOLDER Demo.here)
  ∧ is_file_in (files (main Demo.here Demo.stale).2)
      (OUTPUT_FOLDER Demo.here ++ ["b.jpg"]) = false
  ∧ list_to_set (regular_files_under (files (main Demo.here Demo.stale).2)
                   (OUTPUT_FOLDER Demo.here))
    ≠@{gset Path} list_to_set (regular_files_under (files Demo.stale)
                                 (SOURCE_FOLDER Demo.here)).
Proof.
  split; [vm_compute; reflexivity|]. split; [compute_done|].
  split; [vm_compute; reflexivity|]. intros E.
  assert (H : ["b.jpg"] ∈@{gset Path}
                list_to_set (regular_files_under (files (main Demo.here Demo.stale).2)
                               (OUTPUT_FOLDER Demo.here))).
  { rewrite E. apply elem_of_list_to_set. compute_done. }
  apply elem_of_list_to_set in H. revert H. compute_done.
Qed.


Lemma failure_aborts_run_witness :
  (main Demo.here Demo.bad).1 = Raise PdfReadError
  ∧ files (main Demo.here Demo.bad).2 !! ["home"; "u"; "docs - watermarked"; "a.pdf"]
    = Some (NFile [Byte.x4c; Byte.x53; Byte.x4c; Byte.x53] Demo.st1)
  ∧ files (main Demo.here Demo.bad).2 !! ["home"; "u"; "docs - watermarked"; "b.jpg"]
    = None.
Proof.
  pose (tmp := ["tmp"; "tmpk3x9.pdf"]).
  pose (all_files := all_files_of Demo.here (files Demo.bad)).
  pose (w1 := (tempfile_NamedTemporaryFile Demo.bad).2).
  pose (w0 := (load_stamp tmp w1).2).
  pose (wk := (for_each [["home"; "u"; "docs"; "a.pdf"]]
                 (do_file Demo.here all_files Demo.a4_page) w0).2).
  pose (wf := (do_file Demo.here all_files Demo.a4_page
                 ["home"; "u"; "docs"; "sub"; "c.PDF"] wk).2).
  destruct (failure_aborts_run Demo.here Demo.bad tmp w1 Demo.a4_page w0
              [["home"; "u"; "docs"; "a.pdf"]]
              ["home"; "u"; "docs"; "sub"; "c.PDF"]
              [["home"; "u"; "docs"; "b.jpg"]] wk PdfReadError wf)
    as (Hmain & _ & Hkeep & _); try (vm_compute; reflexivity).
  split; [by rewrite Hmain|]. rewrite Hmain. simpl. split.
  - apply Hkeep; [vm_compute; reflexivity|discriminate..].
  - vm_compute. reflexivity.
Defined.

Lemma stamp_file_is_removed_witness :
  files (main Demo.here Demo.good).2 !! ["tmp"; "tmpk3x9.pdf"] = None
  ∧ files (main Demo.here Demo.bad).2 !! ["tmp"; "tmpk3x9.pdf"] = None.
Proof.
  split.
  - destruct (stamp_file_is_removed Demo.here Demo.good ["tmp"; "tmpk3x9.pdf"]
                (tempfile_NamedTemporaryFile Demo.good).2) as (_ & H & _);
      [vm_compute; reflexivity | vm_compute; discriminate | vm_compute; reflexivity
      | exact H].
  - destruct (stamp_file_is_removed Demo.here Demo.bad ["tmp"; "tmpk3x9.pdf"]
                (tempfile_NamedTemporaryFile Demo.bad).2) as (_ & H & _);
      [vm_compute; reflexivity | vm_compute; discriminate | vm_compute; reflexivity
      | exact H].
Defined.

(** Where the hypothesis of C1 on directories matters: [shutil.copy2] writes
    inside a directory that stands at the output path, and the run succeeds. *)
Example copy2_into_existing_directory :
  (main Demo.here Demo.stale).1 = Ok tt
  ∧ files (main Demo.here Demo.stale).2
      !! ["home"; "u"; "docs - watermarked"; "b.jpg"] = Some NDir
  ∧ files (main Demo.here Demo.stale).2
      !! ["home"; "u"; "docs - watermarked"; "b.jpg"; "b.jpg"]
    = Some (NFile [Byte.x4a; Byte.x46] Demo.st0).
Proof. vm_compute. done. Qed.

(** The spec's scenario: two PDFs watermarked, one file copied, and the
    lines the run prints. *)
Example scenario_stdout :
  stdout (main Demo.here Demo.good).2
  = ["Watermarking: a.pdf"; "Watermarking: sub/c.PDF"; "Copied: b.jpg";
     Demo.here_summary].
Proof. vm_compute. reflexivity. Qed.

(** ** The further properties on the same trees *)

Lemma stdout_of_a_successful_run_witness :
  stdout (main Demo.here Demo.good).2
  = ["Watermarking: a.pdf"; "Watermarking: sub/c.PDF"; "Copied: b.jpg";
     Demo.here_summary].
Proof.
  destruct (stdout_of_a_successful_run Demo.here Demo.good (main Demo.here Demo.good).2)
    as [H _]; [vm_compute; reflexivity|].
  rewrite H. vm_compute. reflexivity.
Defined.

(** A document that does not parse: its line is there.  A copy whose name
    does not print: the copy is made, and the line stops after its first
    word. *)
Lemma stdout_of_a_failed_run_witness :
  ((main Demo.here Demo.bad).1 = Raise PdfReadError
   ∧ stdout (main Demo.here Demo.bad).2
     = ["Watermarking: a.pdf"; "Watermarking: sub/c.PDF"])
  ∧ ((main Demo.here Demo.odd).1 = Raise UnicodeEncodeError
     ∧ stdout (main Demo.here Demo.odd).2 = ["Watermarking: a.pdf"; "Copied: "]
     ∧ printable Demo.here ["home"; "u"; "docs"; Demo.odd_name] = false).
Proof.
  pose (tmp := ["tmp"; "tmpk3x9.pdf"]).
  split.
  - pose (all_files := all_files_of Demo.here (files Demo.bad)).
    pose (w1 := (tempfile_NamedTemporaryFile Demo.bad).2).
    pose (w0 := (load_stamp tmp w1).2).
    pose (wk := (for_each [["home"; "u"; "docs"; "a.pdf"]]
                   (do_file Demo.here all_files Demo.a4_page) w0).2).
    pose (wf := (do_file Demo.here all_files Demo.a4_page
                   ["home"; "u"; "docs"; "sub"; "c.PDF"] wk).2).
    destruct (stdout_of_a_failed_run Demo.here Demo.bad tmp w1 Demo.a4_page w0
                [["home"; "u"; "docs"; "a.pdf"]]
                ["home"; "u"; "docs"; "sub"; "c.PDF"]
                [["home"; "u"; "docs"; "b.jpg"]] wk PdfReadError wf)
      as (Hmain & Hout & _); [vm_compute; reflexivity..|].
    split; [exact Hmain|]. rewrite Hout. vm_compute. reflexivity.
  - pose (all_files := all_files_of Demo.here (files Demo.odd)).
    pose (w1 := (tempfile_NamedTemporaryFile Demo.odd).2).
    pose (w0 := (load_stamp tmp w1).2).
    pose (wk := (for_each [["home"; "u"; "docs"; "a.pdf"]]
                   (do_file Demo.here all_files Demo.a4_page) w0).2).
    pose (wf := (do_file Demo.here all_files Demo.a4_page
                   ["home"; "u"; "docs"; Demo.odd_name] wk).2).
    destruct (stdout_of_a_failed_run Demo.here Demo.odd tmp w1 Demo.a4_page w0
                [["home"; "u"; "docs"; "a.pdf"]]
                ["home"; "u"; "docs"; Demo.odd_name] [] wk UnicodeEncodeError wf)
      as (Hmain & Hout & Hbad & _); [vm_compute; reflexivity..|].
    split; [exact Hmain|]. split; [|by apply Hbad].
    rewrite Hout. vm_compute. reflexivity.
Defined.

Lemma failure_before_the_files_leaves_no_trace_witness :
  ((main Demo.here (set_faults [Some PermissionError] Demo.good)).1
   = Raise (OSError PermissionError)
   ∧ files (main Demo.here (set_faults [Some PermissionError] Demo.good)).2
     = files Demo.good)
  ∧ ((main Demo.here (set_faults [None; Some NoSpaceError] Demo.good)).1
     = Raise (OSError NoSpaceError)
     ∧ files (main Demo.here (set_faults [None; Some NoSpaceError] Demo.good)).2
       = files Demo.good).
Proof.
  pose (denied := set_faults [Some PermissionError] Demo.good).
  pose (full := set_faults [None; Some NoSpaceError] Demo.good).
  split.
  - destruct (failure_before_the_files_leaves_no_trace Demo.here denied
                (OSError PermissionError)) as (H1 & H2 & _);
      [vm_compute; reflexivity | vm_compute; discriminate
      | left; vm_compute; reflexivity | ].
    split; [exact H1|exact H2].
  - destruct (failure_before_the_files_leaves_no_trace Demo.here full
                (OSError NoSpaceError)) as (H1 & H2 & _);
      [vm_compute; reflexivity | vm_compute; discriminate | | ].
    + right. exists ["tmp"; "tmpk3x9.pdf"], (tempfile_NamedTemporaryFile full).2.
      split; vm_compute; reflexivity.
    + split; [exact H1|exact H2].
Defined.


Lemma every_pdf_carries_the_stamp_witness :
  ∃ stamp_page rest d st pages writer st',
    pdf_parse (canvas_render A4 stamp_code) = Some (stamp_page :: rest)
    ∧ files Demo.good !! ["home"; "u"; "docs"; "a.pdf"] = Some (NFile d st)
    ∧ pdf_parse d = Some pages
    ∧ stamped stamp_page pages writer
    ∧ files (main Demo.here Demo.good).2
        !! out_path Demo.here ["home"; "u"; "docs"; "a.pdf"]
      = Some (NFile (pdf_serialize writer) st').
Proof.
  apply (every_pdf_carries_the_stamp Demo.here Demo.good);
    [vm_compute; reflexivity | apply demo_temp_outside | compute_done].
Defined.

Lemma files_after_a_failure_are_not_reached_witness :
  files (main Demo.here Demo.bad).2 !! ["home"; "u"; "docs - watermarked"; "b.jpg"]
  = files Demo.bad !! ["home"; "u"; "docs - watermarked"; "b.jpg"].
Proof.
  pose (tmp := ["tmp"; "tmpk3x9.pdf"]).
  pose (all_files := all_files_of Demo.here (files Demo.bad)).
  pose (w1 := (tempfile_NamedTemporaryFile Demo.bad).2).
  pose (w0 := (load_stamp tmp w1).2).
  pose (wk := (for_each [["home"; "u"; "docs"; "a.pdf"]]
                 (do_file Demo.here all_files Demo.a4_page) w0).2).
  pose (wf := (do_file Demo.here all_files Demo.a4_page
                 ["home"; "u"; "docs"; "sub"; "c.PDF"] wk).2).
  destruct (files_after_a_failure_are_not_reached Demo.here Demo.bad tmp w1
              Demo.a4_page w0
              [["home"; "u"; "docs"; "a.pdf"]]
              ["home"; "u"; "docs"; "sub"; "c.PDF"]
              [["home"; "u"; "docs"; "b.jpg"]] wk PdfReadError wf)
    as (Hpost & _); [vm_compute; reflexivity..|].
  destruct (Hpost ["home"; "u"; "docs"; "b.jpg"]) as [H _]; [by left|exact H].
Defined.


Lemma watermark_pdf_unreadable_input_witness :
  (watermark_pdf ["home"; "u"; "docs"; "sub"; "c.PDF"] ["tmp"; "out.pdf"]
     Demo.a4_page Demo.bad).1 = Raise PdfReadError
  ∧ files (watermark_pdf ["home"; "u"; "docs"; "sub"; "c.PDF"] ["tmp"; "out.pdf"]
             Demo.a4_page Demo.bad).2 = files Demo.bad.
Proof.
  destruct (watermark_pdf_unreadable_input ["home"; "u"; "docs"; "sub"; "c.PDF"]
              ["tmp"; "out.pdf"] Demo.a4_page Demo.bad) as (e & He & Hf & Hk).
  { intros d st Hd. vm_compute in Hd. injection Hd as <- _. vm_compute. reflexivity. }
  split; [|exact Hf]. rewrite He, (Hk eq_refl). vm_compute. reflexivity.
Defined.

Lemma watermark_pdf_succeeds_witness :
  ∃ w' writer st',
    watermark_pdf ["home"; "u"; "docs"; "a.pdf"] ["tmp"; "new"; "out.pdf"]
      Demo.a4_page Demo.good = (Ok tt, w')
    ∧ length writer = 2
    ∧ files w' !! ["tmp"; "new"; "out.pdf"] = Some (NFile (pdf_serialize writer) st')
    ∧ files w' !! ["tmp"; "new"] = Some NDir.
Proof.
  destruct (watermark_pdf_succeeds ["home"; "u"; "docs"; "a.pdf"]
              ["tmp"; "new"; "out.pdf"] Demo.a4_page Demo.good
              [Byte.x4c; Byte.x4c] Demo.st0 [Demo.letter_page; Demo.letter_page])
    as (w' & writer & st' & Hrun & [Hlen _] & Hout & Hdirs);
    try (vm_compute; reflexivity).
  - intros q Hq.
    assert (H : Forall (λ q, is_file_in (files Demo.good) q = false)
                  (prefixes (PurePath.parent ["tmp"; "new"; "out.pdf"])))
      by compute_done.
    eapply Forall_forall in H; [|exact Hq]. exact H.
  - discriminate.
  - exists w', writer, st'. split; [exact Hrun|]. split; [exact Hlen|].
    split; [exact Hout|]. apply Hdirs. compute_done.
Defined.

